(** * The data-access layer of the NutraIQX project manager (src/app.py)

    The application keeps two PostgreSQL tables, [projects] and [tasks], and
    reaches them through six Python functions: [get_projects],
    [get_project_id], [create_project], [delete_project], [load_tasks] and
    [save_tasks].  This file embeds the two tables, the SQL statements the
    functions send and the functions themselves, and proves the contracts of
    the layer; further down it does the same for the parts of the page that
    work on the task frame.

    What is modelled and what is not:
    - a table is the list of its rows in physical (insertion) order;
    - an INTEGER column holds a [Z]; a Python [int] bound to such a column
      from outside must fit the 32-bit range of INTEGER, otherwise the
      statement raises;
    - a cell read back from the store is nullable ([option]): the schema
      declares NOT NULL, but [load_tasks] guards against NULL anyway;
    - a SERIAL column draws its value from a sequence, which is never
      rolled back; a sequence is taken not to run out (it would after
      2147483647 values);
    - a Python [str] is a [string], taken as its UTF-8 bytes; a TEXT cell is
      a [text], a string without the character NUL, which PostgreSQL cannot
      store and psycopg2 refuses to send;
    - all calls go through the one connection [get_conn] caches, and a
      transaction stays open on it until [conn.commit()]: the store below
      carries the tables as that connection sees them next to what is
      committed (see [with_commit]).  The connection itself and the
      liveness probe of [db] are spelled out in the module [Conn]. *)

From Stdlib Require Import Ascii.
From stdpp Require Import gmap.
From stdpp Require Import base decidable option numbers strings sorting list.

Local Open Scope string_scope.
Local Open Scope Z_scope.

(** ** Text *)

(** The character [\x00]. *)
Definition NUL : ascii := "000"%char.

(** The string holds no NUL. *)
Fixpoint nul_free (s : string) : bool :=
  match s with
  | EmptyString => true
  | String c rest => if Ascii.eqb c NUL then false else nul_free rest
  end.

(** A value of a TEXT column. *)
Record text := Text {
  str : string;
  str_nul_free : nul_free str
}.

Global Instance text_eq_dec : EqDecision text.
Proof.
  intros [a Ha] [b Hb]. destruct (decide (a = b)) as [Heq|Hne].
  - left. subst b. f_equal. apply proof_irrel.
  - right. intros Heq. apply Hne. by injection Heq.
Defined.

(** The TEXT value psycopg2 sends for a [str] parameter; there is none for a
    string that holds NUL. *)
Definition to_text (v : string) : option text :=
  match decide (nul_free v) with
  | left H => Some (Text v H)
  | right _ => None
  end.

(** ** Rows and the store *)

(** [CREATE TABLE projects (id SERIAL PRIMARY KEY, name TEXT UNIQUE NOT NULL)] *)
Record project_row := ProjectRow {
  p_id : Z;
  p_text : text
}.

(** The name of a project row as Python reads it. *)
Definition p_name (p : project_row) : string := str (p_text p).

(** [CREATE TABLE tasks (id SERIAL PRIMARY KEY,
      project_id INTEGER REFERENCES projects(id) ON DELETE CASCADE,
      sno INTEGER NOT NULL, task TEXT NOT NULL DEFAULT '',
      comments TEXT NOT NULL DEFAULT '', status TEXT NOT NULL DEFAULT 'Pending')].
    [project_id] is nullable in the schema; the other cells are kept
    nullable here because [load_tasks] treats them so. *)
Record task_row := TaskRow {
  t_id : Z;
  t_project_id : option Z;
  t_sno : option Z;
  t_task : option text;
  t_comments : option text;
  t_status : option text
}.

(** The store between two calls of the layer.  [projects] and [tasks] are
    the tables as the connection of the process sees them, and so as every
    function of the layer reads them; [committed_tasks] is the task table
    as of the last commit.  The two differ while the work of a call that
    ended without commit is pending (see [with_commit]).  The project table
    needs no second copy: the two functions that write to it send one
    statement and then commit or fail.  [projects_id_seq] and
    [tasks_id_seq] hold the value the next [nextval] of the sequences
    behind the SERIAL columns returns. *)
Record db := Db {
  projects : list project_row;
  tasks : list task_row;
  projects_id_seq : Z;
  tasks_id_seq : Z;
  committed_tasks : list task_row
}.

Global Instance project_row_eq_dec : EqDecision project_row.
Proof. solve_decision. Defined.

Global Instance task_row_eq_dec : EqDecision task_row.
Proof. solve_decision. Defined.

(** One row of the data frame the task functions exchange with the UI:
    the columns "S.No.", "Task", "Comments" and "Status". *)
Record record := Rec {
  S_No : Z;
  Task : string;
  Comments : string;
  Status : string
}.

Global Instance record_eq_dec : EqDecision record.
Proof. solve_decision. Defined.

(** ** Exceptions and the monad of the layer *)

(** What a statement of the layer can raise: three errors the server
    reports through psycopg2, and the [ValueError] psycopg2 itself raises
    when a [str] parameter holds NUL. *)
Inductive exn :=
  | UniqueViolation
  | ForeignKeyViolation
  | NumericValueOutOfRange
  | ValueError.

(** [ValueError] is raised before the statement is sent: the server never
    sees it and the transaction goes on. *)
Definition client_side (e : exn) : bool :=
  match e with
  | ValueError => true
  | UniqueViolation | ForeignKeyViolation | NumericValueOutOfRange => false
  end.

Inductive outcome (A : Type) :=
  | Ok (a : A)
  | Raise (e : exn).
Arguments Ok {A} a.
Arguments Raise {A} e.

(** A computation over the store that returns or raises. *)
Definition M (A : Type) : Type := db → outcome A * db.

Definition ret {A} (a : A) : M A := λ s, (Ok a, s).

Definition bind {A B} (m : M A) (k : A → M B) : M B := λ s,
  match m s with
  | (Ok a, s') => k a s'
  | (Raise e, s') => (Raise e, s')
  end.

Global Instance M_ret : MRet M := @ret.

Global Instance M_bind : MBind M := λ A B k m, bind m k.

(** A read-only statement: it returns what it fetches and leaves the store
    as it is. *)
Definition query {A} (q : db → A) : M A := λ s, (Ok (q s), s).

(** A [str] bound to a [%s] of a statement: psycopg2 quotes it when
    [cur.execute] builds the statement, and raises [ValueError] for a
    string that holds NUL. *)
Definition param (v : string) : M text := λ s,
  match to_text v with
  | Some t => (Ok t, s)
  | None => (Raise ValueError, s)
  end.

(** [conn.commit()]: what the connection sees becomes the committed state. *)
Definition commit (s : db) : db :=
  {| projects := projects s;
     tasks := tasks s;
     projects_id_seq := projects_id_seq s;
     tasks_id_seq := tasks_id_seq s;
     committed_tasks := tasks s |}.

(** The tables as of the last commit before the call that started in
    [before], with the sequences as they are [now]. *)
Definition rollback (before now : db) : db :=
  {| projects := projects before;
     tasks := committed_tasks before;
     projects_id_seq := projects_id_seq now;
     tasks_id_seq := tasks_id_seq now;
     committed_tasks := committed_tasks before |}.

(** The writing functions have the shape
    [conn = db(); with conn.cursor() as cur: <statements>; conn.commit()].
    - When the statements return, [conn.commit()] makes permanent
      everything the connection has done since the last commit.
    - When the server refuses a statement, [conn.commit()] is not reached
      and the connection is left inside an aborted transaction; the probe
      [SELECT 1] of the next [db()] call fails on it, the connection is
      dropped and a new one is opened, which sees the tables of the last
      commit.  Everything done since that commit is lost, the statements of
      the failed call and pending work of earlier calls alike.  Sequence
      values drawn are not given back.
    - When psycopg2 raises on its own side ([ValueError]), [conn.commit()]
      is not reached either, but the transaction is intact: the statements
      the call has run stay visible to the connection, uncommitted, until a
      later call commits them or a refused statement drops them. *)
Definition with_commit {A} (body : M A) : M A := λ s,
  match body s with
  | (Ok a, s') => (Ok a, commit s')
  | (Raise e, s') =>
      if client_side e then (Raise e, s') else (Raise e, rollback s s')
  end.

(** [cur.fetchone()] *)
Definition fetchone {A} (rows : list A) : option A := head rows.

(** [cur.executemany(stmt, params)]: the statement once per parameter
    tuple, in order; the first failure ends the loop. *)
Fixpoint executemany {A} (stmt : A → M unit) (params : list A) : M unit :=
  match params with
  | [] => ret tt
  | p :: ps => stmt p;; executemany stmt ps
  end.

(** ** The SQL statements *)

(** Ordering of [ORDER BY id]. *)
Definition id_le (a b : project_row) : Prop := p_id a ≤ p_id b.

Global Instance id_le_dec a b : Decision (id_le a b).
Proof. unfold id_le. apply _. Defined.

(** [SELECT name FROM projects ORDER BY id] *)
Definition select_name_order_by_id (s : db) : list string :=
  p_name <$> merge_sort id_le (projects s).

(** The rows [SELECT id FROM projects WHERE name = %s] finds for a name. *)
Definition select_id_where_name (name : string) (s : db) : list Z :=
  p_id <$> filter (λ p, p_name p = name) (projects s).

(** [INSERT INTO projects (name) VALUES (%s)]: [id] takes the next value of
    its sequence, then the primary key and the UNIQUE constraint on [name]
    are checked. *)
Definition insert_project (name : string) : M unit :=
  name ← param name;
  ((λ s,
    let id := projects_id_seq s in
    let s1 := {| projects := projects s; tasks := tasks s;
                 projects_id_seq := id + 1; tasks_id_seq := tasks_id_seq s;
                 committed_tasks := committed_tasks s |} in
    if decide (id ∈ p_id <$> projects s) then (Raise UniqueViolation, s1)
    else if decide (str name ∈ p_name <$> projects s) then (Raise UniqueViolation, s1)
    else (Ok tt,
          {| projects := projects s ++ [ProjectRow id name]; tasks := tasks s;
             projects_id_seq := id + 1; tasks_id_seq := tasks_id_seq s;
             committed_tasks := committed_tasks s |})) : M unit).

(** A task row refers to one of the listed project ids. *)
Definition refers_to (ids : list Z) (t : task_row) : Prop :=
  match t_project_id t with
  | Some pid => pid ∈ ids
  | None => False
  end.

Global Instance refers_to_dec ids t : Decision (refers_to ids t).
Proof. unfold refers_to. destruct (t_project_id t); apply _. Defined.

(** [DELETE FROM projects WHERE name = %s], with the ON DELETE CASCADE of
    [tasks.project_id]. *)
Definition delete_projects_where_name (name : string) : M unit :=
  param name;;
  ((λ s,
    let gone := select_id_where_name name s in
    (Ok tt,
     {| projects := filter (λ p, p_name p ≠ name) (projects s);
        tasks := filter (λ t, ¬ refers_to gone t) (tasks s);
        projects_id_seq := projects_id_seq s;
        tasks_id_seq := tasks_id_seq s;
        committed_tasks := committed_tasks s |})) : M unit).

(** Ordering of [ORDER BY sno]: ascending, NULL after every value. *)
Definition sno_le (a b : task_row) : Prop :=
  match t_sno a, t_sno b with
  | Some x, Some y => x ≤ y
  | _, None => True
  | None, Some _ => False
  end.

Global Instance sno_le_dec a b : Decision (sno_le a b).
Proof. unfold sno_le. destruct (t_sno a), (t_sno b); apply _. Defined.

(** A cell of the column "S.No." as the cursor hands it to pandas: an
    [int], [None], or an object [pd.to_numeric] cannot read as a number.
    The INTEGER column of the schema gives only the first two. *)
Inductive sno_cell :=
  | SnoInt (n : Z)
  | SnoNone
  | SnoOther.

(** What the cursor makes of a cell of an INTEGER column. *)
Definition fetched_sno (c : option Z) : sno_cell :=
  match c with
  | Some n => SnoInt n
  | None => SnoNone
  end.

(** A fetched tuple [(sno, task, comments, status)]. *)
Definition fetched : Type := sno_cell * option string * option string * option string.

(** [SELECT sno, task, comments, status FROM tasks WHERE project_id = %s
    ORDER BY sno].  SQL leaves the order of rows with equal [sno] open; the
    sort used here is one admissible choice and no theorem below depends on
    how it breaks ties. *)
Definition select_tasks_where_project_id_order_by_sno (pid : Z) (s : db) : list fetched :=
  (λ t, (fetched_sno (t_sno t), str <$> t_task t, str <$> t_comments t,
         str <$> t_status t)) <$>
    merge_sort sno_le (filter (λ t, t_project_id t = Some pid) (tasks s)).

(** [DELETE FROM tasks WHERE project_id = %s] *)
Definition delete_tasks_where_project_id (pid : Z) : M unit := λ s,
  (Ok tt,
   {| projects := projects s;
      tasks := filter (λ t, t_project_id t ≠ Some pid) (tasks s);
      projects_id_seq := projects_id_seq s;
      tasks_id_seq := tasks_id_seq s;
      committed_tasks := committed_tasks s |}).

(** The values an INTEGER column accepts. *)
Definition int4 (z : Z) : Prop := -2147483648 ≤ z ≤ 2147483647.

Global Instance int4_dec z : Decision (int4 z).
Proof. unfold int4. apply _. Defined.

(** [INSERT INTO tasks (project_id, sno, task, comments, status)
    VALUES (%s, %s, %s, %s, %s)] with the tuple
    [(pid, sno, task, comments, status)].  psycopg2 first quotes the
    parameters.  The server refuses a [sno] outside INTEGER when the
    statement is prepared; otherwise [id] takes the next value of its
    sequence and the primary key, then the foreign key, are checked.
    [pid] is a value read from [projects.id].  The text parameters are
    Python strings, never [None], so NOT NULL cannot fail. *)
Definition insert_task (row : Z * Z * string * string * string) : M unit :=
  let '(pid, sno, task, comments, status) := row in
  task ← param task;
  comments ← param comments;
  status ← param status;
  ((λ s,
    if decide (int4 sno) then
      let id := tasks_id_seq s in
      let s1 := {| projects := projects s; tasks := tasks s;
                   projects_id_seq := projects_id_seq s; tasks_id_seq := id + 1;
                   committed_tasks := committed_tasks s |} in
      if decide (id ∈ t_id <$> tasks s) then (Raise UniqueViolation, s1)
      else if decide (pid ∈ p_id <$> projects s) then
        (Ok tt,
         {| projects := projects s;
            tasks := tasks s ++
              [TaskRow id (Some pid) (Some sno) (Some task) (Some comments) (Some status)];
            projects_id_seq := projects_id_seq s; tasks_id_seq := id + 1;
            committed_tasks := committed_tasks s |})
      else (Raise ForeignKeyViolation, s1)
    else (Raise NumericValueOutOfRange, s)) : M unit).

(** ** The Python functions *)

(** [init_db] creates both tables when they do not exist.  On a fresh
    database that gives the empty store, with both sequences at 1. *)
Definition empty_store : db :=
  {| projects := []; tasks := []; projects_id_seq := 1; tasks_id_seq := 1;
     committed_tasks := [] |}.

(** [get_projects] *)
Definition get_projects : M (list string) :=
  query select_name_order_by_id.

(** [get_project_id]: [row[0] if row else None]. *)
Definition get_project_id (name : string) : M (option Z) :=
  param name;;
  row ← query (λ s, fetchone (select_id_where_name name s));
  ret row.

(** [create_project] *)
Definition create_project (name : string) : M unit :=
  with_commit (insert_project name).

(** [delete_project] *)
Definition delete_project (name : string) : M unit :=
  with_commit (delete_projects_where_name name).

(** [empty_df]: a frame with the four columns and no row. *)
Definition empty_df : list record := [].

(** [df.empty] *)
Definition empty (df : list record) : bool :=
  match df with
  | [] => true
  | _ :: _ => false
  end.

(** [pd.to_numeric(..., errors="coerce")] on a cell: a number stays;
    [None], and whatever else is no number, becomes NaN (written [None]).
    A column with a NaN in it is a float64 column; every INTEGER value is a
    float64 exactly, so the numbers of the column come out as they went
    in. *)
Definition to_numeric (c : sno_cell) : option Z :=
  match c with
  | SnoInt n => Some n
  | SnoNone | SnoOther => None
  end.

(** [.fillna(d)] *)
Definition fillna {A} (d : A) (c : option A) : A := default d c.

(** The frame [load_tasks] builds from the fetched tuples: the four
    column-wise coercions, row by row.  [EmptyString] is the empty string
    of [.fillna('')]. *)
Definition to_frame (rows : list fetched) : list record :=
  (λ '(sno, task, comments, status),
     {| S_No := fillna 0 (to_numeric sno);
        Task := fillna EmptyString task;
        Comments := fillna EmptyString comments;
        Status := fillna "Pending" status |}) <$> rows.

(** [load_tasks] *)
Definition load_tasks (project_name : string) : M (list record) :=
  pid ← get_project_id project_name;
  match pid with
  | None => ret empty_df
  | Some pid =>
      rows ← query (select_tasks_where_project_id_order_by_sno pid);
      match rows with
      | [] => ret empty_df
      | _ :: _ => ret (to_frame rows)
      end
  end.

(** The parameter tuples [save_tasks] builds, one per row of the frame:
    [(pid, int(row["S.No."]), str(row["Task"]), str(row["Comments"]),
    str(row["Status"]))].  [int] and [str] leave an [int] and a [str] as
    they are. *)
Definition save_rows (pid : Z) (df : list record) : list (Z * Z * string * string * string) :=
  (λ row, (pid, S_No row, Task row, Comments row, Status row)) <$> df.

(** [save_tasks] *)
Definition save_tasks (project_name : string) (df : list record) : M unit :=
  pid ← get_project_id project_name;
  match pid with
  | None => ret tt
  | Some pid =>
      with_commit (
        delete_tasks_where_project_id pid;;
        if empty df then ret tt
        else executemany insert_task (save_rows pid df))
  end.

(** ** Runs of the layer *)

(** One call of the layer. *)
Inductive op :=
  | CreateProject (name : string)
  | DeleteProject (name : string)
  | SaveTasks (name : string) (df : list record)
  | LoadTasks (name : string)
  | ListProjects
  | GetProjectId (name : string).

(** The store after a call, whatever it returned or raised. *)
Definition step (s : db) (o : op) : db :=
  match o with
  | CreateProject name => (create_project name s).2
  | DeleteProject name => (delete_project name s).2
  | SaveTasks name df => (save_tasks name df s).2
  | LoadTasks name => (load_tasks name s).2
  | ListProjects => (get_projects s).2
  | GetProjectId name => (get_project_id name s).2
  end.

Definition run (ops : list op) (s : db) : db := foldl step s ops.

(** The states the layer can bring a fresh database to. *)
Definition reachable (s : db) : Prop := ∃ ops, s = run ops empty_store.

(** The store of the end-to-end example: project "Audit" with two tasks. *)
Definition audit_store : db :=
  run [CreateProject "Audit";
       SaveTasks "Audit" [Rec 2 "Patch CVE" "urgent" "Partial";
                          Rec 1 "Review logs" EmptyString "Pending"]] empty_store.

(** A second project next to "Audit". *)
Definition ops_store : db :=
  run [CreateProject "Ops";
       SaveTasks "Ops" [Rec 1 "Rotate keys" EmptyString "Resolved"]] audit_store.

(** A string with a NUL in it: ["a\x00b"]. *)
Definition with_nul : string := String "a" (String NUL "b").

(** [ops_store] after a save under "Ops" that psycopg2 gave up on: the
    DELETE has run, the INSERT was never sent, nothing is committed. *)
Definition pending_store : db :=
  run [SaveTasks "Ops" [Rec 1 with_nul EmptyString "Pending"]] ops_store.

(** A store as an older schema without NOT NULL could have left it: the
    first task row of "Audit" holds NULL in every nullable cell. *)
Definition legacy_tasks : list task_row :=
  [TaskRow 1 (Some 1) None None None None;
   TaskRow 2 (Some 1) (Some 4) (Some (Text "Patch CVE" I)) None
     (Some (Text "Partial" I))].

Definition legacy_store : db :=
  {| projects := [ProjectRow 1 (Text "Audit" I)];
     tasks := legacy_tasks;
     projects_id_seq := 2;
     tasks_id_seq := 3;
     committed_tasks := legacy_tasks |}.

(** ** Notions the contracts are stated with *)

(** The three text cells of a record can be sent. *)
Definition texts_nul_free (r : record) : Prop :=
  nul_free (Task r) ∧ nul_free (Comments r) ∧ nul_free (Status r).

Global Instance texts_nul_free_dec r : Decision (texts_nul_free r).
Proof. unfold texts_nul_free. apply _. Defined.

(** The INSERT of [save_tasks] goes through for the record. *)
Definition accepted (r : record) : Prop := int4 (S_No r) ∧ texts_nul_free r.

Global Instance accepted_dec r : Decision (accepted r).
Proof. unfold accepted. apply _. Defined.

(** The records of a frame ahead of the first one that is not accepted,
    and that one. *)
Fixpoint accepted_rows (df : list record) : list record :=
  match df with
  | [] => []
  | r :: df => if decide (accepted r) then r :: accepted_rows df else []
  end.

Fixpoint refused_row (df : list record) : option record :=
  match df with
  | [] => None
  | r :: df => if decide (accepted r) then refused_row df else Some r
  end.

(** What the INSERT raises for a record that is not accepted: psycopg2
    looks at the strings before the server looks at the number. *)
Definition refusal (r : record) : exn :=
  if decide (texts_nul_free r) then NumericValueOutOfRange else ValueError.

(** The TEXT value of a string without NUL (the empty one for any other
    string). *)
Definition text_of (v : string) : text := default (Text EmptyString I) (to_text v).

(** The rows [executemany] adds when every insert goes through: one per
    parameter tuple, with consecutive ids from [seq] on. *)
Fixpoint inserted (seq : Z) (rows : list (Z * Z * string * string * string)) : list task_row :=
  match rows with
  | [] => []
  | (pid, sno, task, comments, status) :: rows =>
      TaskRow seq (Some pid) (Some sno) (Some (text_of task))
              (Some (text_of comments)) (Some (text_of status))
        :: inserted (seq + 1) rows
  end.

(** Neither sequence goes back. *)
Definition seqs_le (s s' : db) : Prop :=
  projects_id_seq s ≤ projects_id_seq s' ∧ tasks_id_seq s ≤ tasks_id_seq s'.

(** [m] takes every store to one related to it by [R]. *)
Definition respects (R : relation db) {A} (m : M A) : Prop := ∀ s, R s (m s).2.

(** The constraints of the schema on a task table, together with what
    SERIAL adds to them: the ids are distinct and behind the sequence, and
    every task has an owner among the projects. *)
Record tasks_ok (s : db) (ts : list task_row) : Prop := {
  ok_task_ids : NoDup (t_id <$> ts);
  ok_tasks_seq : Forall (λ t, t_id t < tasks_id_seq s) ts;
  ok_owner :
    Forall (λ t, ∃ pid, t_project_id t = Some pid ∧ pid ∈ p_id <$> projects s) ts
}.

(** A consistent store: project names are distinct, project rows lie in
    the order of their ids, behind the sequence, and both the task table
    the connection sees and the committed one meet the constraints. *)
Record db_ok (s : db) : Prop := {
  ok_names : NoDup (p_name <$> projects s);
  ok_project_ids : StronglySorted Z.lt (p_id <$> projects s);
  ok_projects_seq : Forall (λ p, p_id p < projects_id_seq s) (projects s);
  ok_tasks : tasks_ok s (tasks s);
  ok_committed : tasks_ok s (committed_tasks s)
}.

(** Consistency is kept, and the sequences only grow. *)
Definition keeps_ok (s s' : db) : Prop := db_ok s → db_ok s' ∧ seqs_le s s'.

(** The project table and the task rows of every project but [pid] are the
    same in [s] and [s']. *)
Definition same_outside (pid : Z) (s s' : db) : Prop :=
  projects s' = projects s ∧
  filter (λ t, t_project_id t ≠ Some pid) (tasks s') =
    filter (λ t, t_project_id t ≠ Some pid) (tasks s).

(** The project table is the same in [s] and [s']. *)
Definition same_projects (s s' : db) : Prop := projects s' = projects s.

(** A frame is in ascending order of "S.No.". *)
Definition sno_ascending (df : list record) : Prop :=
  Sorted (λ a b, S_No a ≤ S_No b) df.

(** Saving [df] under [name] and loading [name] again gives the records of
    [df] back, in ascending order of "S.No.". *)
Definition save_then_load (name : string) (df : list record) (s : db) : Prop :=
  ∃ s1 out,
    save_tasks name df s = (Ok tt, s1) ∧
    load_tasks name s1 = (Ok out, s1) ∧
    out ≡ₚ df ∧ sno_ascending out.



(** The record [load_tasks] makes of a stored task row: NULL becomes 0 in
    "S.No.", the empty string in "Task" and "Comments", and "Pending" in
    "Status". *)
Definition row_record (t : task_row) : record :=
  {| S_No := match t_sno t with Some n => n | None => 0 end;
     Task := match t_task t with Some x => str x | None => EmptyString end;
     Comments := match t_comments t with Some x => str x | None => EmptyString end;
     Status := match t_status t with Some x => str x | None => "Pending" end |}.

(** The store once [save_tasks] has run its DELETE for project [pid] and
    the INSERTs for the records [df], ahead of the commit: the rows of the
    other projects, then one new row per record. *)
Definition with_rows (pid : Z) (df : list record) (s : db) : db :=
  {| projects := projects s;
     tasks := filter (λ t, t_project_id t ≠ Some pid) (tasks s) ++
              inserted (tasks_id_seq s) (save_rows pid df);
     projects_id_seq := projects_id_seq s;
     tasks_id_seq := tasks_id_seq s + Z.of_nat (length df);
     committed_tasks := committed_tasks s |}.

(** The store a successful [save_tasks] of [df] under project [pid]
    leaves. *)
Definition stored_after_save (pid : Z) (df : list record) (s : db) : db :=
  commit (with_rows pid df s).

(** The store holds no uncommitted work. *)
Definition settled_store (s : db) : Prop := committed_tasks s = tasks s.

(** The "S.No." cell of a task row holds a value of INTEGER, or NULL. *)
Definition sno_int4 (t : task_row) : Prop :=
  match t_sno t with
  | Some n => int4 n
  | None => True
  end.

Global Instance sno_int4_dec t : Decision (sno_int4 t).
Proof. unfold sno_int4. destruct (t_sno t); apply _. Defined.

(** The same for a fetched cell. *)
Definition cell_int4 (c : sno_cell) : Prop :=
  match c with
  | SnoInt n => int4 n
  | SnoNone | SnoOther => True
  end.

Global Instance cell_int4_dec c : Decision (cell_int4 c).
Proof. unfold cell_int4. destruct c; apply _. Defined.

(** ** Further notions: frames with distinct "S.No." *)

(** The "S.No." column is strictly ascending. *)
Definition sno_strict (df : list record) : Prop :=
  StronglySorted Z.lt (S_No <$> df).

(** ** The task toolbar of the page *)

(** [int(df["S.No."].max()) + 1 if not df.empty else 1].  [max] is the
    exact maximum of the column, and [int(...) + 1] is arithmetic on Python
    integers, which have no bound. *)
Definition next_sno (df : list record) : Z :=
  match df with
  | [] => 1
  | r :: rest => foldr Z.max (S_No r) (S_No <$> rest) + 1
  end.

(** The largest value of an int64 column. *)
Definition int64_max : Z := 9223372036854775807.

(** The "Add Task" button:
    [pd.concat([df, new_row], ignore_index=True)] with
    [new_row = {"S.No.": next_sno, "Task": "", "Comments": "",
    "Status": "Pending"}].  The "S.No." column of a frame read from the
    store is int64.  As long as [next_sno] fits int64 the result is the
    frame with the new row appended.  Beyond that the new row no longer
    fits the column, [concat] turns the column into float64 and rounds its
    values: the result is no frame of integer records, and is left out
    here ([None]). *)
Definition add_task (df : list record) : option (list record) :=
  if decide (next_sno df ≤ int64_max)
  then Some (df ++ [Rec (next_sno df) EmptyString EmptyString "Pending"])%list
  else None.

(** [df.drop(index=to_drop).reset_index(drop=True)].  The frames of the
    page carry the row labels 0, 1, ..., n-1 (every one of them comes from
    [reset_index] or [ignore_index=True]); a label that is no row label
    makes [drop] raise KeyError, written [None]. *)
Definition drop (to_drop : list nat) (df : list record) : option (list record) :=
  if decide (Forall (λ i, (i < length df)%nat) to_drop)
  then Some ((filter (λ ir, ir.1 ∉ to_drop) (zip (seq 0 (length df)) df)).*2)
  else None.

(** [df["S.No."] = range(1, len(df) + 1)] *)
Definition renumber (df : list record) : list record :=
  zip_with (λ i r, Rec (Z.of_nat i) (Task r) (Comments r) (Status r))
           (seq 1 (length df)) df.

(** The "Delete Selected" button, on the frame of the session and the
    labels kept under "_selected_rows": nothing happens to the frame when no
    row is selected. *)
Definition delete_selected (to_drop : list nat) (df : list record) : option (list record) :=
  match to_drop with
  | [] => Some df
  | _ :: _ => renumber <$> drop to_drop df
  end.

(** The check boxes under the grid: [num_cols = min(len(df), 10)], row [i]
    goes to [cols[i % num_cols]]. *)
Definition num_cols (df : list record) : nat := (length df) `min` 10.

Definition column_of (df : list record) (i : nat) : nat := (i `mod` num_cols df)%nat.

(** What a run of the script leaves under "_selected_rows", given what was
    there before ([previous]; the empty list when the key was never set).
    [checked i] tells whether the box of row [i] is ticked.  The boxes are
    drawn, and the key is written, only [if not df.empty]: on an empty
    frame the selection of an earlier run stays. *)
Definition selected_rows (checked : nat → bool) (df : list record)
    (previous : list nat) : list nat :=
  if empty df then previous
  else filter (λ i, checked i = true) (seq 0 (length df)).

(** What a row says apart from its number. *)
Definition content (r : record) : string * string * string :=
  (Task r, Comments r, Status r).

(** ** The cells of the rendered table ([build_table]) *)

(** [s.replace(old, new)] for a one-character [old], the only use the page
    makes of it.  A string is taken as its UTF-8 bytes; the three characters
    replaced are ASCII, and no byte of a longer UTF-8 sequence is. *)
Fixpoint replace (old : ascii) (new : string) (s : string) : string :=
  match s with
  | EmptyString => EmptyString
  | String c rest =>
      if decide (c = old) then new +:+ replace old new rest
      else String c (replace old new rest)
  end.

(** The newline character of ["\n"]. *)
Definition LF : ascii := "010"%char.

(** [task_text = str(row["Task"]).replace("<", "&lt;").replace(">", "&gt;")] *)
Definition task_text (row : record) : string :=
  replace ">"%char "&gt;" (replace "<"%char "&lt;" (Task row)).

(** [comment_text = str(row["Comments"]).replace("<", "&lt;")
      .replace(">", "&gt;").replace("\n", "<br>")] *)
Definition comment_text (row : record) : string :=
  replace LF "<br>" (replace ">"%char "&gt;" (replace "<"%char "&lt;" (Comments row))).

(** How often a character occurs in a string. *)
Fixpoint count_char (c : ascii) (s : string) : nat :=
  match s with
  | EmptyString => 0
  | String d rest => (if decide (d = c) then 1 else 0) + count_char c rest
  end.

(** A string rewritten character by character. *)
Fixpoint each_char (f : ascii → string) (s : string) : string :=
  match s with
  | EmptyString => EmptyString
  | String c rest => f c +:+ each_char f rest
  end.

(** What becomes of one character of a task text, and of a comment. *)
Definition task_char (c : ascii) : string :=
  if decide (c = "<"%char) then "&lt;"
  else if decide (c = ">"%char) then "&gt;"
  else String c EmptyString.

Definition comment_char (c : ascii) : string :=
  if decide (c = "<"%char) then "&lt;"
  else if decide (c = ">"%char) then "&gt;"
  else if decide (c = LF) then "<br>"
  else String c EmptyString.

(** ** The metrics under the grid *)

(** [(edited["Status"] == status).sum()] *)
Definition metric (status : string) (df : list record) : nat :=
  length (filter (λ r, Status r = status) df).

(** The options of the "Status" column. *)
Definition status_options : list string := ["Pending"; "Resolved"; "Partial"].

(** ** The side bar *)

(** What the "Create" button answers: [st.warning("Enter a name.")],
    [st.warning("Already exists.")] or [st.success(f"'{name}' created!")]. *)
Inductive notice :=
  | EnterAName
  | AlreadyExists
  | Created (name : string).

(** The "Create" button of the side bar, from [projects = get_projects()]
    at its top on.  [strip] stands for [str.strip]; nothing below depends on
    what it removes. *)
Definition add_project (strip : string → string) (new_name : string) : M notice :=
  projects ← get_projects;
  let name := strip new_name in
  if decide (name = EmptyString) then ret EnterAName
  else if decide (name ∈ projects) then ret AlreadyExists
  else create_project name;; ret (Created name).

(** ** The connection

    The functions above treat a call of the layer as one step on the store.
    The module [Conn] spells the calls out statement by statement, on the
    connection [get_conn] caches and [db] hands out, with the transaction
    psycopg2 keeps open on it: a statement sees the uncommitted work of its
    own transaction; once the server has refused a statement, every
    further statement on the connection raises [InFailedSqlTransaction]; a
    statement psycopg2 gives up on before sending it leaves the transaction
    as it is; [conn.commit()] makes the work of the transaction permanent;
    sequences are outside transactions.  Opening a connection is taken to
    succeed. *)

(** What the calls on a connection raise to the layer. *)
Inductive pg_error :=
  | StatementError (e : exn)
  | InFailedSqlTransaction.

Inductive result (A : Type) :=
  | Returns (a : A)
  | Raises (e : pg_error).
Arguments Returns {A} a.
Arguments Raises {A} e.

(** A connection: the tables as its transaction sees them, and whether the
    server has refused a statement of the transaction. *)
Record connection := Connection {
  c_projects : list project_row;
  c_tasks : list task_row;
  c_failed : bool
}.

(** The process: the server's committed store, and the connection
    [st.cache_resource] holds for [get_conn], if any.  In the store of the
    server [tasks] and [committed_tasks] are the same table. *)
Record process := Process {
  server : db;
  cache : option connection
}.

(** A computation of the process that returns or raises. *)
Definition P (A : Type) : Type := process → result A * process.

Definition conn_ret {A} (a : A) : P A := λ p, (Returns a, p).

Definition conn_bind {A B} (m : P A) (k : A → P B) : P B := λ p,
  match m p with
  | (Returns a, p') => k a p'
  | (Raises e, p') => (Raises e, p')
  end.

Global Instance P_ret : MRet P := @conn_ret.

Global Instance P_bind : MBind P := λ A B k m, conn_bind m k.

(** [psycopg2.connect(...)]: a new connection sees the committed tables. *)
Definition connect (p : process) : connection :=
  {| c_projects := projects (server p);
     c_tasks := tasks (server p);
     c_failed := false |}.

(** The store as the transaction of [c] sees it. *)
Definition session (c : connection) (srv : db) : db :=
  {| projects := c_projects c;
     tasks := c_tasks c;
     projects_id_seq := projects_id_seq srv;
     tasks_id_seq := tasks_id_seq srv;
     committed_tasks := tasks srv |}.

(** The committed store once a statement has drawn from the sequences:
    the tables of [srv], the sequences as they are [now]. *)
Definition draw (srv now : db) : db :=
  {| projects := projects srv;
     tasks := tasks srv;
     projects_id_seq := projects_id_seq now;
     tasks_id_seq := tasks_id_seq now;
     committed_tasks := committed_tasks srv |}.

(** The outcome of a call of the store-level function, as the caller of the
    connection-level function sees it. *)
Definition lift {A} (o : outcome A) : result A :=
  match o with
  | Ok a => Returns a
  | Raise e => Raises (StatementError e)
  end.

Module Conn.

(** [get_conn], under [@st.cache_resource]: the cached connection, or a
    new one that is then cached. *)
Definition get_conn : P unit := λ p,
  match cache p with
  | Some _ => (Returns tt, p)
  | None => (Returns tt, {| server := server p; cache := Some (connect p) |})
  end.

(** [cur.execute(stmt)] for one statement on the cached connection, the
    one every [conn] of the layer refers to.  (Each function takes its
    connection from [db()], so the cache is filled when a statement runs;
    for an empty cache the definition connects.)  A statement the server
    refuses leaves the transaction failed.  A statement psycopg2 gives up
    on is not sent: the connection is as before. *)
Definition execute {A} (stmt : M A) : P A := λ p,
  let c := default (connect p) (cache p) in
  if c_failed c then (Raises InFailedSqlTransaction, p)
  else
    match stmt (session c (server p)) with
    | (Ok a, s') =>
        (Returns a,
         {| server := draw (server p) s';
            cache := Some {| c_projects := projects s'; c_tasks := tasks s';
                             c_failed := false |} |})
    | (Raise e, s') =>
        (Raises (StatementError e),
         {| server := draw (server p) s';
            cache := Some {| c_projects := c_projects c; c_tasks := c_tasks c;
                             c_failed := negb (client_side e) |} |})
    end.

(** [conn.commit()]; on a failed transaction the server answers COMMIT by
    rolling back. *)
Definition commit : P unit := λ p,
  let c := default (connect p) (cache p) in
  if c_failed c then (Returns tt, {| server := server p; cache := Some (connect p) |})
  else (Returns tt, {| server := commit (session c (server p)); cache := Some c |}).

(** [cur.executemany(stmt, params)] *)
Fixpoint executemany {A} (stmt : A → M unit) (params : list A) : P unit :=
  match params with
  | [] => mret tt
  | x :: params => execute (stmt x);; executemany stmt params
  end.

(** [db]: the cached connection if [SELECT 1] runs on it; otherwise the
    cache is cleared and a new connection is opened. *)
Definition db : P unit := λ p,
  let p1 := (get_conn p).2 in
  match execute (query (λ _, 1)) p1 with
  | (Returns _, p2) => (Returns tt, p2)
  | (Raises _, p2) => get_conn {| server := server p2; cache := None |}
  end.

(** [get_projects] *)
Definition get_projects : P (list string) :=
  db;; execute (query select_name_order_by_id).

(** [get_project_id] *)
Definition get_project_id (name : string) : P (option Z) :=
  db;;
  row ← execute (param name;; query (λ s, fetchone (select_id_where_name name s)));
  mret row.

(** [create_project] *)
Definition create_project (name : string) : P unit :=
  db;; execute (insert_project name);; commit.

(** [delete_project] *)
Definition delete_project (name : string) : P unit :=
  db;; execute (delete_projects_where_name name);; commit.

(** [load_tasks] *)
Definition load_tasks (project_name : string) : P (list record) :=
  pid ← get_project_id project_name;
  match pid with
  | None => mret empty_df
  | Some pid =>
      db;;
      rows ← execute (query (select_tasks_where_project_id_order_by_sno pid));
      match rows with
      | [] => mret empty_df
      | _ :: _ => mret (to_frame rows)
      end
  end.

(** [save_tasks] *)
Definition save_tasks (project_name : string) (df : list record) : P unit :=
  pid ← get_project_id project_name;
  match pid with
  | None => mret tt
  | Some pid =>
      db;;
      execute (delete_tasks_where_project_id pid);;
      (if empty df then mret tt
       else executemany insert_task (save_rows pid df));;
      commit
  end.

End Conn.

(** The store of the one-step functions that a process stands for: what
    the cached connection sees while its transaction is intact, and the
    committed store otherwise (the next [db()] replaces the connection). *)
Definition store_of (p : process) : db :=
  match cache p with
  | Some c => if c_failed c then server p else session c (server p)
  | None => server p
  end.

(** Between two calls of the layer: the store of the server is a committed
    one, and the project table carries no uncommitted work. *)
Definition tidy (p : process) : Prop :=
  committed_tasks (server p) = tasks (server p) ∧
  match cache p with
  | Some c => c_failed c = false → c_projects c = projects (server p)
  | None => True
  end.

(** The connection-level function [low] does what the one-step function
    [high] says: it returns or raises as [high] does on the store the
    process stands for, and leaves a process that stands for the store
    [high] leaves. *)
Definition refines {A} (low : P A) (high : M A) : Prop :=
  ∀ p, tidy p →
    ∃ p', low p = (lift (high (store_of p)).1, p') ∧
          store_of p' = (high (store_of p)).2 ∧
          tidy p'.

(** Inside a transaction: on a connection that has not failed, [low] does
    to the session what [high] does to the store the session shows; the
    connection is failed afterwards exactly when the server has refused a
    statement. *)
Definition follows {A} (low : P A) (high : M A) : Prop :=
  ∀ p c, cache p = Some c → c_failed c = false →
    match high (session c (server p)) with
    | (Ok a, s') =>
        committed_tasks s' = tasks (server p) ∧
        low p =
          (Returns a,
           {| server := draw (server p) s';
              cache := Some (Connection (projects s') (tasks s') false) |})
    | (Raise e, s') =>
        committed_tasks s' = tasks (server p) ∧
        if client_side e then
          low p =
            (Raises (StatementError e),
             {| server := draw (server p) s';
                cache := Some (Connection (projects s') (tasks s') false) |})
        else
          ∃ c', low p =
                  (Raises (StatementError e),
                   {| server := draw (server p) s'; cache := Some c' |}) ∧
                c_failed c' = true
    end.

(** A statement is sent whole or not at all: when psycopg2 gives up on it,
    nothing has happened; and no statement commits. *)
Definition statement {A} (stmt : M A) : Prop :=
  ∀ s, committed_tasks (stmt s).2 = committed_tasks s ∧
       ∀ e, (stmt s).1 = Raise e → client_side e → (stmt s).2 = s.

(** ** The frame kept in the session *)

(** [state_key = f"df_{selected_project}"] *)
Definition state_key (selected_project : string) : string :=
  "df_" +:+ selected_project.

(** The frame the page works on:
    [if state_key not in st.session_state:
         st.session_state[state_key] = load_tasks(selected_project)]
    and then [df = st.session_state[state_key]].  Of [st.session_state]
    only the frames are kept here, under their keys. *)
Definition session_frame (selected_project : string)
    (session_state : gmap string (list record)) :
    M (list record * gmap string (list record)) :=
  match session_state !! state_key selected_project with
  | Some df => ret (df, session_state)
  | None =>
      df ← load_tasks selected_project;
      ret (df, <[state_key selected_project := df]> session_state)
  end.

(** The "Reload" button: [del st.session_state[state_key]]. *)
Definition reload (selected_project : string)
    (session_state : gmap string (list record)) : gmap string (list record) :=
  delete (state_key selected_project) session_state.

(** * The contracts *)

Example end_to_end :
  (load_tasks "Audit" audit_store).1 =
    Ok [Rec 1 "Review logs" EmptyString "Pending"; Rec 2 "Patch CVE" "urgent" "Partial"] ∧
  (load_tasks "Audit" (run [DeleteProject "Audit"] audit_store)).1 = Ok [] ∧
  (get_projects (run [DeleteProject "Audit"] audit_store)).1 = Ok [].
Proof. vm_compute. done. Qed.

(** ** Text and parameters *)

Lemma text_eq (a b : text) : str a = str b → a = b.
Proof.
  destruct a as [a Ha], b as [b Hb]. simpl. intros ->. f_equal. apply proof_irrel.
Qed.

Lemma to_text_str t : to_text (str t) = Some t.
Proof.
  unfold to_text. destruct (decide (nul_free (str t))) as [H|H].
  - f_equal. by apply text_eq.
  - destruct H. apply str_nul_free.
Qed.

Lemma to_text_nul_free v : nul_free v → to_text v = Some (text_of v).
Proof.
  intros H. unfold text_of, to_text. by destruct (decide (nul_free v)).
Qed.

Lemma str_text_of v : nul_free v → str (text_of v) = v.
Proof.
  intros H. unfold text_of, to_text. by destruct (decide (nul_free v)).
Qed.

Lemma to_text_nul v : ¬ nul_free v → to_text v = None.
Proof. intros H. unfold to_text. by destruct (decide (nul_free v)). Qed.

Lemma param_ok v s : nul_free v → param v s = (Ok (text_of v), s).
Proof. intros H. unfold param. by rewrite to_text_nul_free. Qed.

Lemma param_nul v s : ¬ nul_free v → param v s = (Raise ValueError, s).
Proof. intros H. unfold param. by rewrite to_text_nul. Qed.

Lemma param_store (v : string) (s : db) : (param v s).2 = s.
Proof. unfold param. by destruct (to_text v). Qed.

(** A name read from the project table holds no NUL. *)
Lemma stored_name_nul_free name s : name ∈ p_name <$> projects s → nul_free name.
Proof.
  intros Hin. apply list_elem_of_fmap in Hin as (p & -> & _). apply str_nul_free.
Qed.

(** ** Looking a project up *)

Lemma get_project_id_eq name s :
  nul_free name →
  get_project_id name s = (Ok (head (select_id_where_name name s)), s).
Proof.
  intros H. unfold get_project_id, mbind, M_bind, bind. by rewrite param_ok.
Qed.

Lemma get_project_id_nul name s :
  ¬ nul_free name → get_project_id name s = (Raise ValueError, s).
Proof.
  intros H. unfold get_project_id, mbind, M_bind, bind. by rewrite param_nul.
Qed.

Lemma get_project_id_store name s : (get_project_id name s).2 = s.
Proof.
  destruct (decide (nul_free name)) as [H|H].
  - by rewrite get_project_id_eq.
  - by rewrite get_project_id_nul.
Qed.

Lemma select_id_present name s :
  name ∈ p_name <$> projects s →
  ∃ pid, head (select_id_where_name name s) = Some pid ∧
         pid ∈ p_id <$> projects s.
Proof.
  unfold select_id_where_name. intros Hin.
  apply list_elem_of_fmap in Hin as (p & -> & Hp).
  destruct (filter _ (projects s)) as [|q l] eqn:Hf.
  - exfalso. eapply (filter_nil_not_elem_of _ _ _ Hf); [|exact Hp]. done.
  - exists (p_id q). split; [done|].
    assert (Hq : q ∈ filter (λ p0, p_name p0 = p_name p) (projects s))
      by (rewrite Hf; left).
    apply list_elem_of_filter in Hq as [_ Hq]. by apply list_elem_of_fmap_2.
Qed.

Lemma select_id_absent name s :
  name ∉ p_name <$> projects s → select_id_where_name name s = [].
Proof.
  unfold select_id_where_name. intros Hnot.
  destruct (filter _ (projects s)) as [|q l] eqn:Hf; [done|].
  exfalso. apply Hnot.
  assert (Hq : q ∈ filter (λ p, p_name p = name) (projects s))
    by (rewrite Hf; left).
  apply list_elem_of_filter in Hq as [<- Hq]. by apply list_elem_of_fmap_2.
Qed.

Lemma select_id_elem name s pid :
  pid ∈ select_id_where_name name s ↔
  ∃ p, p ∈ projects s ∧ p_name p = name ∧ p_id p = pid.
Proof.
  unfold select_id_where_name. rewrite list_elem_of_fmap. split.
  - intros (p & -> & Hq). apply list_elem_of_filter in Hq as [Hn Hq]. by exists p.
  - intros (p & Hp & Hn & <-). exists p. split; [done|].
    by apply list_elem_of_filter.
Qed.

Lemma head_elem_of {A} (l : list A) x : head l = Some x → x ∈ l.
Proof. destruct l; intros [= ->]. left. Qed.

Lemma select_id_found name s pid :
  head (select_id_where_name name s) = Some pid →
  name ∈ p_name <$> projects s ∧ pid ∈ p_id <$> projects s.
Proof.
  intros H. apply head_elem_of, select_id_elem in H as (p & Hp & <- & <-).
  split; by apply list_elem_of_fmap_2.
Qed.

(** ** What the task functions compute once the project is found *)

Lemma load_tasks_found name s pid :
  nul_free name →
  head (select_id_where_name name s) = Some pid →
  load_tasks name s =
    (Ok (to_frame (select_tasks_where_project_id_order_by_sno pid s)), s).
Proof.
  intros Hn H. unfold load_tasks, mbind, M_bind. unfold bind at 1.
  rewrite get_project_id_eq, H by done.
  unfold bind, query. by destruct (select_tasks_where_project_id_order_by_sno pid s).
Qed.

Lemma load_tasks_missing name s :
  nul_free name →
  head (select_id_where_name name s) = None →
  load_tasks name s = (Ok [], s).
Proof.
  intros Hn H. unfold load_tasks, mbind, M_bind. unfold bind at 1.
  by rewrite get_project_id_eq, H.
Qed.

Lemma load_tasks_nul name s :
  ¬ nul_free name → load_tasks name s = (Raise ValueError, s).
Proof.
  intros Hn. unfold load_tasks, mbind, M_bind. unfold bind at 1.
  by rewrite get_project_id_nul.
Qed.

Lemma save_tasks_missing name df s :
  nul_free name →
  head (select_id_where_name name s) = None →
  save_tasks name df s = (Ok tt, s).
Proof.
  intros Hn H. unfold save_tasks, mbind, M_bind. unfold bind at 1.
  by rewrite get_project_id_eq, H.
Qed.

Lemma save_tasks_nul name df s :
  ¬ nul_free name → save_tasks name df s = (Raise ValueError, s).
Proof.
  intros Hn. unfold save_tasks, mbind, M_bind. unfold bind at 1.
  by rewrite get_project_id_nul.
Qed.

Lemma save_tasks_found name df s pid :
  nul_free name →
  head (select_id_where_name name s) = Some pid →
  save_tasks name df s =
    with_commit (λ s0, bind (delete_tasks_where_project_id pid)
                   (λ _, executemany insert_task (save_rows pid df)) s0) s.
Proof.
  intros Hn H. unfold save_tasks, mbind, M_bind. unfold bind at 1.
  rewrite get_project_id_eq, H by done. unfold with_commit, bind. simpl.
  by destruct df.
Qed.

(** ** Properties every statement of the layer keeps *)

Section respects.
(** A relation between the store before and after, kept by each statement
    and so by every composition of statements. *)
Variable R : relation db.
Hypothesis R_refl : ∀ s, R s s.
Hypothesis R_trans : ∀ s1 s2 s3, R s1 s2 → R s2 s3 → R s1 s3.
Hypothesis R_commit : ∀ s s', R s s' → R s (commit s').
Hypothesis R_rollback : ∀ s s', R s s' → R s (rollback s s').

Lemma respects_ret {A} (a : A) : respects R (ret a).
Proof. intros s. apply R_refl. Qed.

Lemma respects_query {A} (q : db → A) : respects R (query q).
Proof. intros s. apply R_refl. Qed.

Lemma respects_param v : respects R (param v).
Proof. intros s. unfold param. destruct (to_text v); apply R_refl. Qed.

Lemma respects_bind {A B} (m : M A) (k : A → M B) :
  respects R m → (∀ a, respects R (k a)) → respects R (bind m k).
Proof.
  intros Hm Hk s. unfold bind. specialize (Hm s).
  destruct (m s) as [[a|e] s1]; simpl in *; [|done].
  eapply R_trans; [exact Hm|]. apply Hk.
Qed.

Lemma respects_executemany_Forall {A} (stmt : A → M unit) params :
  Forall (λ p, respects R (stmt p)) params →
  respects R (executemany stmt params).
Proof.
  induction 1 as [|p ps Hp _ IH]; simpl.
  - apply respects_ret.
  - apply respects_bind; auto.
Qed.

Lemma respects_executemany {A} (stmt : A → M unit) params :
  (∀ p, respects R (stmt p)) → respects R (executemany stmt params).
Proof.
  intros Hstmt. apply respects_executemany_Forall, Forall_forall. auto.
Qed.

Lemma respects_with_commit {A} (body : M A) :
  respects R body → respects R (with_commit body).
Proof.
  intros Hb s. unfold with_commit. specialize (Hb s).
  destruct (body s) as [[a|e] s1]; simpl in *; [auto|].
  destruct (client_side e); simpl; auto.
Qed.

Lemma respects_get_project_id name : respects R (get_project_id name).
Proof. intros s. rewrite get_project_id_store. apply R_refl. Qed.

Lemma respects_get_projects : respects R get_projects.
Proof. intros s. apply R_refl. Qed.

Lemma respects_load_tasks name : respects R (load_tasks name).
Proof.
  apply respects_bind; [apply respects_get_project_id|].
  intros [pid|]; [|apply respects_ret].
  apply respects_bind; [apply respects_query|].
  intros [|r rows]; apply respects_ret.
Qed.

Lemma respects_save_tasks name df :
  (∀ pid, respects R (delete_tasks_where_project_id pid)) →
  (∀ row, respects R (insert_task row)) →
  respects R (save_tasks name df).
Proof.
  intros Hdel Hins.
  apply respects_bind; [apply respects_get_project_id|].
  intros [pid|]; [|apply respects_ret].
  apply respects_with_commit, respects_bind; [apply Hdel|].
  intros _. destruct (empty df); [apply respects_ret|].
  by apply respects_executemany.
Qed.
End respects.

Lemma load_tasks_store name s : (load_tasks name s).2 = s.
Proof. by apply (respects_load_tasks (λ s s', s' = s)); [|congruence]. Qed.

(** ** Consistent stores *)

Lemma empty_store_ok : db_ok empty_store.
Proof. split; simpl; try constructor; simpl; constructor. Qed.

Lemma seqs_le_refl s : seqs_le s s.
Proof. unfold seqs_le. lia. Qed.

Lemma tasks_ok_mono s s' ts :
  tasks_ok s ts →
  tasks_id_seq s ≤ tasks_id_seq s' →
  (∀ pid, pid ∈ p_id <$> projects s → pid ∈ p_id <$> projects s') →
  tasks_ok s' ts.
Proof.
  intros [Hi Hs Ho] Hle Hsub. split; [done| |].
  - eapply Forall_impl; [exact Hs|]. simpl. intros; lia.
  - eapply Forall_impl; [exact Ho|]. simpl. intros t (pid & ? & ?). eauto.
Qed.

Lemma NoDup_fmap_filter {A B} (f : A → B) (P : A → Prop)
    `{∀ x, Decision (P x)} (l : list A) :
  NoDup (f <$> l) → NoDup (f <$> filter P l).
Proof.
  intros Hl. eapply sublist_NoDup; [exact Hl|].
  apply fmap_sublist, sublist_filter.
Qed.

Lemma Forall_filter_keep {A} (Q P : A → Prop) `{∀ x, Decision (P x)} (l : list A) :
  Forall Q l → Forall Q (filter P l).
Proof.
  rewrite !Forall_forall. intros HQ x Hx.
  apply list_elem_of_filter in Hx. apply HQ. tauto.
Qed.

Lemma tasks_ok_filter s ts (P : task_row → Prop) `{∀ t, Decision (P t)} :
  tasks_ok s ts → tasks_ok s (filter P ts).
Proof.
  intros [Hi Hs Ho]. split.
  - by apply NoDup_fmap_filter.
  - by apply Forall_filter_keep.
  - by apply Forall_filter_keep.
Qed.

Lemma db_ok_advance s s' :
  db_ok s → projects s' = projects s → tasks s' = tasks s →
  committed_tasks s' = committed_tasks s → seqs_le s s' →
  db_ok s'.
Proof.
  intros [Hn Hi Hps Ht Hc] Hp Hts Hcs [H1 H2].
  split; rewrite ?Hp, ?Hts, ?Hcs; try done.
  - eapply Forall_impl; [exact Hps|]. simpl. intros; lia.
  - apply (tasks_ok_mono s); [done..|]. by rewrite Hp.
  - apply (tasks_ok_mono s); [done..|]. by rewrite Hp.
Qed.

Lemma keeps_ok_refl s : keeps_ok s s.
Proof. intros H. split; [done|apply seqs_le_refl]. Qed.

Lemma keeps_ok_trans s1 s2 s3 : keeps_ok s1 s2 → keeps_ok s2 s3 → keeps_ok s1 s3.
Proof.
  intros H12 H23 H1. destruct (H12 H1) as [H2 [? ?]].
  destruct (H23 H2) as [H3 [? ?]]. split; [done|]. unfold seqs_le. lia.
Qed.

Lemma db_ok_commit s : db_ok s → db_ok (commit s).
Proof.
  intros [Hn Hi Hps Ht Hc]. split; simpl; try done.
  - by apply (tasks_ok_mono s).
  - by apply (tasks_ok_mono s).
Qed.

Lemma db_ok_rollback s s' : db_ok s → seqs_le s s' → db_ok (rollback s s').
Proof.
  intros [Hn Hi Hps Ht Hc] [H1 H2]. split; simpl; try done.
  - eapply Forall_impl; [exact Hps|]. simpl. intros; lia.
  - by apply (tasks_ok_mono s).
  - by apply (tasks_ok_mono s).
Qed.

Lemma keeps_ok_commit s s' : keeps_ok s s' → keeps_ok s (commit s').
Proof.
  intros H Hs. destruct (H Hs) as [Hs' Hle]. split; [|exact Hle].
  by apply db_ok_commit.
Qed.

Lemma keeps_ok_rollback s s' : keeps_ok s s' → keeps_ok s (rollback s s').
Proof.
  intros H Hs. destruct (H Hs) as [_ Hle]. split; [|exact Hle].
  by apply db_ok_rollback.
Qed.

Lemma StronglySorted_lt_NoDup (l : list Z) : StronglySorted Z.lt l → NoDup l.
Proof.
  induction 1 as [|x l _ IH Hx]; constructor; [|done].
  intros Hin. rewrite Forall_forall in Hx. specialize (Hx _ Hin). lia.
Qed.

Lemma StronglySorted_fmap_filter {A} (f : A → Z) (P : A → Prop)
    `{∀ x, Decision (P x)} (l : list A) :
  StronglySorted Z.lt (f <$> l) → StronglySorted Z.lt (f <$> filter P l).
Proof.
  induction l as [|x l IH]; [done|]. csimpl. intros Hs.
  apply StronglySorted_inv in Hs as [Hs Hx].
  rewrite filter_cons. destruct (decide (P x)); [|auto].
  csimpl. constructor; [auto|].
  rewrite Forall_fmap in *. rewrite Forall_forall in *.
  intros y Hy. apply Hx. apply list_elem_of_filter in Hy. tauto.
Qed.

Lemma keeps_ok_insert_project name s : keeps_ok s (insert_project name s).2.
Proof.
  intros Hs. unfold insert_project, mbind, M_bind, bind, param.
  destruct (to_text name) as [nm|]; [|split; [done|apply seqs_le_refl]].
  assert (Hup : seqs_le s {| projects := projects s; tasks := tasks s;
                             projects_id_seq := projects_id_seq s + 1;
                             tasks_id_seq := tasks_id_seq s;
                             committed_tasks := committed_tasks s |})
    by (unfold seqs_le; simpl; lia).
  repeat case_decide; simpl.
  - split; [|done]. by apply (db_ok_advance s).
  - split; [|done]. by apply (db_ok_advance s).
  - split; [|unfold seqs_le; simpl; lia].
    destruct Hs as [Hn Hi Hps Ht Hc]. split; simpl.
    + rewrite fmap_app. apply NoDup_app. split_and!; [done| |apply NoDup_singleton].
      intros x Hx. simpl. rewrite list_elem_of_singleton. by intros ->.
    + rewrite fmap_app. apply StronglySorted_app_2; [|done|repeat constructor].
      intros x1 x2 Hx1 Hx2. simpl in Hx2. apply list_elem_of_singleton in Hx2 as ->.
      apply list_elem_of_fmap in Hx1 as (p & -> & Hp).
      rewrite Forall_forall in Hps. by apply Hps.
    + apply Forall_app. split.
      * eapply Forall_impl; [exact Hps|]. simpl. intros; lia.
      * repeat constructor. simpl. lia.
    + apply (tasks_ok_mono s); [done..|]. simpl. intros pid Hpid.
      rewrite fmap_app. apply elem_of_app. by left.
    + apply (tasks_ok_mono s); [done..|]. simpl. intros pid Hpid.
      rewrite fmap_app. apply elem_of_app. by left.
Qed.

Lemma keeps_ok_delete_tasks pid s :
  keeps_ok s (delete_tasks_where_project_id pid s).2.
Proof.
  intros [Hn Hi Hps Ht Hc]. simpl. split; [|unfold seqs_le; simpl; lia].
  split; simpl; try done.
  - apply tasks_ok_filter. by apply (tasks_ok_mono s).
  - by apply (tasks_ok_mono s).
Qed.

Lemma keeps_ok_insert_task row s : keeps_ok s (insert_task row s).2.
Proof.
  intros Hs. destruct row as [[[[pid sno] task] comments] status].
  unfold insert_task, mbind, M_bind, bind, param.
  destruct (to_text task) as [tk|]; [|split; [done|apply seqs_le_refl]].
  destruct (to_text comments) as [cm|]; [|split; [done|apply seqs_le_refl]].
  destruct (to_text status) as [st|]; [|split; [done|apply seqs_le_refl]].
  assert (Hup : seqs_le s {| projects := projects s; tasks := tasks s;
                             projects_id_seq := projects_id_seq s;
                             tasks_id_seq := tasks_id_seq s + 1;
                             committed_tasks := committed_tasks s |})
    by (unfold seqs_le; simpl; lia).
  repeat case_decide; simpl.
  - split; [|done]. by apply (db_ok_advance s).
  - split; [|done].
    destruct Hs as [Hn Hi Hps [Hti Hts Ho] Hc]. split; simpl; try done.
    + split; simpl.
      * rewrite fmap_app. apply NoDup_app. split_and!; [done| |apply NoDup_singleton].
        intros x Hx. simpl. rewrite list_elem_of_singleton. by intros ->.
      * apply Forall_app. split.
        -- eapply Forall_impl; [exact Hts|]. simpl. intros; lia.
        -- repeat constructor. simpl. lia.
      * apply Forall_app. split; [done|]. repeat constructor. simpl. eauto.
    + apply (tasks_ok_mono s); [done|simpl; lia|done].
  - split; [|done]. by apply (db_ok_advance s).
  - split; [done|apply seqs_le_refl].
Qed.

Lemma keeps_ok_respects_create name : respects keeps_ok (create_project name).
Proof.
  apply respects_with_commit; [apply keeps_ok_commit|apply keeps_ok_rollback|].
  intros s. apply keeps_ok_insert_project.
Qed.

(** The DELETE of a project leaves committed task rows without an owner
    until the commit that follows it. *)
Lemma keeps_ok_respects_delete name : respects keeps_ok (delete_project name).
Proof.
  intros s Hs. unfold delete_project, with_commit, delete_projects_where_name,
    mbind, M_bind, bind, param.
  destruct (to_text name) as [nm|]; simpl; [|split; [done|apply seqs_le_refl]].
  split; [|unfold seqs_le; simpl; lia].
  destruct Hs as [Hn Hi Hps [Hti Hts Ho] Hc].
  assert (Hts' : tasks_ok
    (commit {| projects := filter (λ p, p_name p ≠ name) (projects s);
               tasks := filter (λ t, ¬ refers_to (select_id_where_name name s) t) (tasks s);
               projects_id_seq := projects_id_seq s;
               tasks_id_seq := tasks_id_seq s;
               committed_tasks := committed_tasks s |})
    (filter (λ t, ¬ refers_to (select_id_where_name name s) t) (tasks s))).
  { split; simpl.
    - by apply NoDup_fmap_filter.
    - by apply Forall_filter_keep.
    - rewrite Forall_forall in *. intros t Ht.
      apply list_elem_of_filter in Ht as [Hnot Ht].
      destruct (Ho t Ht) as (pid & Hpid & Hin). exists pid. split; [done|].
      apply list_elem_of_fmap in Hin as (p & -> & Hp).
      apply list_elem_of_fmap_2. apply list_elem_of_filter. split; [|done].
      intros Heq. apply Hnot. unfold refers_to. rewrite Hpid.
      apply select_id_elem. by exists p. }
  split; simpl; try done.
  - by apply NoDup_fmap_filter.
  - by apply StronglySorted_fmap_filter.
  - by apply Forall_filter_keep.
Qed.

Lemma keeps_ok_respects_save name df : respects keeps_ok (save_tasks name df).
Proof.
  apply respects_save_tasks.
  - apply keeps_ok_refl.
  - apply keeps_ok_trans.
  - apply keeps_ok_commit.
  - apply keeps_ok_rollback.
  - intros pid s. apply keeps_ok_delete_tasks.
  - intros row s. apply keeps_ok_insert_task.
Qed.

Lemma step_ok s o : db_ok s → db_ok (step s o).
Proof.
  intros Hs. destruct o; simpl.
  - by apply keeps_ok_respects_create.
  - by apply keeps_ok_respects_delete.
  - by apply keeps_ok_respects_save.
  - by rewrite load_tasks_store.
  - done.
  - by rewrite get_project_id_store.
Qed.

Lemma run_ok ops s : db_ok s → db_ok (run ops s).
Proof.
  revert s. induction ops as [|o ops IH]; intros s Hs; [done|].
  simpl. apply IH, step_ok, Hs.
Qed.

Lemma reachable_ok s : reachable s → db_ok s.
Proof. intros [ops ->]. apply run_ok, empty_store_ok. Qed.

Lemma audit_store_ok : db_ok audit_store.
Proof. apply run_ok, empty_store_ok. Qed.

Lemma ops_store_ok : db_ok ops_store.
Proof. apply run_ok, audit_store_ok. Qed.

Lemma pending_store_ok : db_ok pending_store.
Proof. apply run_ok, ops_store_ok. Qed.

(** ** Task operations on a missing or empty project *)

Lemma filter_none {A} (P : A → Prop) `{∀ x, Decision (P x)} (l : list A) :
  Forall (λ x, ¬ P x) l → filter P l = [].
Proof.
  induction 1 as [|x l Hx _ IH]; [done|].
  by rewrite filter_cons_False.
Qed.

Lemma filter_all {A} (P : A → Prop) `{∀ x, Decision (P x)} (l : list A) :
  Forall P l → filter P l = l.
Proof.
  induction 1 as [|x l Hx _ IH]; [done|].
  rewrite filter_cons_True by done. by f_equal.
Qed.

Lemma load_tasks_no_rows name s pid :
  nul_free name →
  head (select_id_where_name name s) = Some pid →
  Forall (λ t, t_project_id t ≠ Some pid) (tasks s) →
  load_tasks name s = (Ok [], s).
Proof.
  intros Hn Hid Hnone. rewrite (load_tasks_found _ _ _ Hn Hid).
  unfold select_tasks_where_project_id_order_by_sno.
  by rewrite filter_none.
Qed.

Ltac by_compute := apply (bool_decide_unpack _); vm_compute; exact I.

(** C3, for the names psycopg2 can send: when the name holds no NUL and no
    project carries it, [save_tasks] returns without raising and writes
    nothing: the store afterwards is the store before, tables, sequences
    and pending work. *)
Theorem save_tasks_unknown_project name df s :
  nul_free name →
  name ∉ p_name <$> projects s →
  save_tasks name df s = (Ok tt, s).
Proof.
  intros Hn Hnot. apply save_tasks_missing; [done|].
  by rewrite select_id_absent.
Qed.

Lemma save_tasks_unknown_project_witness :
  nul_free "Payroll" ∧
  ("Payroll" ∉ p_name <$> projects audit_store) ∧
  save_tasks "Payroll" [Rec 1 "Run" EmptyString "Pending"] audit_store = (Ok tt, audit_store).
Proof.
  assert (Hn : nul_free "Payroll") by exact I.
  assert (H : "Payroll" ∉ p_name <$> projects audit_store) by by_compute.
  split_and!; [exact Hn|exact H|]. exact (save_tasks_unknown_project _ _ _ Hn H).
Defined.

(** C3 as stated fails: no project is called ["a\x00b"], yet [save_tasks]
    under that name raises, in the look-up of the project id. *)
Lemma save_tasks_unknown_project_nul :
  (with_nul ∉ p_name <$> projects audit_store) ∧
  save_tasks with_nul [Rec 1 "Run" EmptyString "Pending"] audit_store =
    (Raise ValueError, audit_store).
Proof. split; [by_compute|reflexivity]. Qed.

(** C4, for the names psycopg2 can send: for a name without NUL
    [load_tasks] returns a frame and writes nothing; for a name no project
    carries, and for a project no task row refers to, the frame is
    empty. *)
Theorem load_tasks_empty name s :
  nul_free name →
  (∃ out, load_tasks name s = (Ok out, s)) ∧
  (name ∉ p_name <$> projects s → load_tasks name s = (Ok [], s)) ∧
  (∀ pid, get_project_id name s = (Ok (Some pid), s) →
          Forall (λ t, t_project_id t ≠ Some pid) (tasks s) →
          load_tasks name s = (Ok [], s)).
Proof.
  intros Hn. split_and!.
  - destruct (head (select_id_where_name name s)) as [pid|] eqn:Hid.
    + rewrite (load_tasks_found _ _ _ Hn Hid). eauto.
    + rewrite (load_tasks_missing _ _ Hn Hid). eauto.
  - intros Hnot. apply load_tasks_missing; [done|]. by rewrite select_id_absent.
  - intros pid Hid Hnone. rewrite get_project_id_eq in Hid by done.
    injection Hid as Hid. by apply (load_tasks_no_rows _ _ pid).
Qed.

Lemma load_tasks_empty_witness :
  nul_free "Payroll" ∧
  ("Payroll" ∉ p_name <$> projects audit_store) ∧
  load_tasks "Payroll" audit_store = (Ok [], audit_store) ∧
  get_project_id "Audit" (run [SaveTasks "Audit" []] audit_store) =
    (Ok (Some 1), run [SaveTasks "Audit" []] audit_store) ∧
  load_tasks "Audit" (run [SaveTasks "Audit" []] audit_store) =
    (Ok [], run [SaveTasks "Audit" []] audit_store).
Proof.
  assert (H : "Payroll" ∉ p_name <$> projects audit_store) by by_compute.
  destruct (load_tasks_empty "Payroll" audit_store I) as (_ & Hmissing & _).
  destruct (load_tasks_empty "Audit" (run [SaveTasks "Audit" []] audit_store) I)
    as (_ & _ & Hnone).
  split_and!; [exact I|exact H|exact (Hmissing H)|reflexivity|].
  apply (Hnone 1); [reflexivity|]. vm_compute. constructor.
Defined.

(** C4 as stated fails: for the name ["a\x00b"], which no project carries,
    [load_tasks] raises instead of returning the empty frame. *)
Lemma load_tasks_empty_nul :
  (with_nul ∉ p_name <$> projects audit_store) ∧
  load_tasks with_nul audit_store = (Raise ValueError, audit_store).
Proof. split; [by_compute|reflexivity]. Qed.

(** C5: saving the empty frame under an existing project succeeds and
    leaves no task row of that project, so that loading it afterwards
    returns the empty frame. *)
Theorem save_empty_clears name s :
  name ∈ p_name <$> projects s →
  ∃ pid s1,
    get_project_id name s = (Ok (Some pid), s) ∧
    save_tasks name [] s = (Ok tt, s1) ∧
    Forall (λ t, t_project_id t ≠ Some pid) (tasks s1) ∧
    load_tasks name s1 = (Ok [], s1).
Proof.
  intros Hin. pose proof (stored_name_nul_free _ _ Hin) as Hn.
  destruct (select_id_present _ _ Hin) as (pid & Hid & _).
  exists pid. eexists. split; [by rewrite get_project_id_eq, Hid|].
  split; [by rewrite (save_tasks_found _ _ _ _ Hn Hid)|].
  assert (Hgone : Forall (λ t, t_project_id t ≠ Some pid)
                    (filter (λ t, t_project_id t ≠ Some pid) (tasks s))).
  { apply Forall_forall. intros t Ht. by apply list_elem_of_filter in Ht as [? _]. }
  split; [exact Hgone|].
  by apply (load_tasks_no_rows _ _ pid).
Qed.

Lemma save_empty_clears_witness :
  ("Audit" ∈ p_name <$> projects audit_store) ∧
  ∃ pid s1,
    get_project_id "Audit" audit_store = (Ok (Some pid), audit_store) ∧
    save_tasks "Audit" [] audit_store = (Ok tt, s1) ∧
    Forall (λ t, t_project_id t ≠ Some pid) (tasks s1) ∧
    load_tasks "Audit" s1 = (Ok [], s1).
Proof.
  assert (H : "Audit" ∈ p_name <$> projects audit_store) by by_compute.
  split; [exact H|]. exact (save_empty_clears _ _ H).
Defined.

(** ** Deleting a project *)

(** C2, for the names psycopg2 can send: [delete_project] with a name
    without NUL does not raise.  Afterwards the project rows are those of
    before that carry another name, the task rows are those of before that
    referred to no removed project row, and all of it is committed; when no
    project carries the name, both tables and both sequences are as they
    were (the commit still makes pending work of earlier calls
    permanent). *)
Theorem delete_project_cascade name s :
  nul_free name →
  ∃ s',
    delete_project name s = (Ok tt, s') ∧
    (∀ p, p ∈ projects s' ↔ p ∈ projects s ∧ p_name p ≠ name) ∧
    (∀ t, t ∈ tasks s' ↔
          t ∈ tasks s ∧
          ¬ ∃ p, p ∈ projects s ∧ p_name p = name ∧ t_project_id t = Some (p_id p)) ∧
    committed_tasks s' = tasks s' ∧
    (name ∉ p_name <$> projects s → s' = commit s).
Proof.
  intros Hn. eexists. split.
  { unfold delete_project, with_commit, delete_projects_where_name,
      mbind, M_bind, bind. rewrite param_ok by done. reflexivity. }
  simpl. split_and!.
  - intros p. rewrite list_elem_of_filter. tauto.
  - intros t. rewrite list_elem_of_filter.
    enough (refers_to (select_id_where_name name s) t ↔
            ∃ p, p ∈ projects s ∧ p_name p = name ∧ t_project_id t = Some (p_id p))
      by tauto.
    unfold refers_to. split.
    + destruct (t_project_id t) as [pid|]; [|done]. intros Hpid.
      apply select_id_elem in Hpid as (p & Hp & Hname & <-). by exists p.
    + intros (p & Hp & Hname & ->). apply select_id_elem. by exists p.
  - done.
  - intros Hnot. unfold commit. simpl.
    assert (Hp : filter (λ p, p_name p ≠ name) (projects s) = projects s).
    { apply filter_all, Forall_forall. intros p Hp Heq.
      apply Hnot. rewrite <- Heq. by apply list_elem_of_fmap_2. }
    assert (Ht : filter (λ t, ¬ refers_to (select_id_where_name name s) t) (tasks s) =
                 tasks s).
    { apply filter_all, Forall_forall. intros t _.
      rewrite select_id_absent by done. unfold refers_to.
      destruct (t_project_id t); [apply not_elem_of_nil|tauto]. }
    by rewrite Hp, Ht.
Qed.

Lemma delete_project_cascade_witness :
  ∃ s',
    nul_free "Payroll" ∧
    delete_project "Payroll" audit_store = (Ok tt, s') ∧
    ("Payroll" ∉ p_name <$> projects audit_store) ∧
    s' = commit audit_store.
Proof.
  destruct (delete_project_cascade "Payroll" audit_store I)
    as (s' & Hdel & _ & _ & _ & Hnoop).
  assert (H : "Payroll" ∉ p_name <$> projects audit_store) by by_compute.
  exists s'. split_and!; [exact I|exact Hdel|exact H|exact (Hnoop H)].
Defined.

(** C2 as stated fails: no project is called ["a\x00b"], yet
    [delete_project] under that name raises instead of doing nothing. *)
Lemma delete_project_nul :
  (with_nul ∉ p_name <$> projects audit_store) ∧
  delete_project with_nul audit_store = (Raise ValueError, audit_store).
Proof. split; [by_compute|reflexivity]. Qed.

Example delete_project_removes_tasks :
  tasks audit_store ≠ [] ∧
  delete_project "Audit" audit_store =
    (Ok tt, {| projects := []; tasks := []; projects_id_seq := 2; tasks_id_seq := 3;
               committed_tasks := [] |}).
Proof. vm_compute. done. Qed.

(** ** What the INSERTs of [save_tasks] do *)

Lemma bind_param_ok {A} v (k : text → M A) s :
  nul_free v → bind (param v) k s = k (text_of v) s.
Proof. intros H. unfold bind. by rewrite param_ok. Qed.

Lemma bind_param_nul {A} v (k : text → M A) s :
  ¬ nul_free v → bind (param v) k s = (Raise ValueError, s).
Proof. intros H. unfold bind. by rewrite param_nul. Qed.

Lemma insert_task_accepted pid r s :
  accepted r →
  pid ∈ p_id <$> projects s →
  Forall (λ t, t_id t < tasks_id_seq s) (tasks s) →
  insert_task (pid, S_No r, Task r, Comments r, Status r) s =
    (Ok tt,
     {| projects := projects s;
        tasks := tasks s ++ inserted (tasks_id_seq s) (save_rows pid [r]);
        projects_id_seq := projects_id_seq s;
        tasks_id_seq := tasks_id_seq s + 1;
        committed_tasks := committed_tasks s |}).
Proof.
  intros (Hi & Ht & Hc & Hs) Hpid Hseq. unfold insert_task, mbind, M_bind.
  rewrite bind_param_ok by done. cbn beta.
  rewrite bind_param_ok by done. cbn beta.
  rewrite bind_param_ok by done. cbn beta.
  rewrite decide_True by done.
  rewrite decide_False; last first.
  { intros Hin. apply list_elem_of_fmap in Hin as (t & Heq & Hin).
    rewrite Forall_forall in Hseq. specialize (Hseq _ Hin). lia. }
  by rewrite decide_True.
Qed.

Lemma insert_task_refused pid r s :
  ¬ accepted r →
  insert_task (pid, S_No r, Task r, Comments r, Status r) s = (Raise (refusal r), s).
Proof.
  intros Hno. unfold insert_task, mbind, M_bind, refusal.
  destruct (decide (texts_nul_free r)) as [(Ht & Hc & Hs)|Hnul].
  - rewrite bind_param_ok by done. cbn beta.
    rewrite bind_param_ok by done. cbn beta.
    rewrite bind_param_ok by done. cbn beta.
    rewrite decide_False; [done|]. intros Hi. apply Hno. by split.
  - destruct (decide (nul_free (Task r))) as [Ht|Ht];
      [|by rewrite bind_param_nul].
    rewrite bind_param_ok by done. cbn beta.
    destruct (decide (nul_free (Comments r))) as [Hc|Hc];
      [|by rewrite bind_param_nul].
    rewrite bind_param_ok by done. cbn beta.
    destruct (decide (nul_free (Status r))) as [Hs|Hs];
      [|by rewrite bind_param_nul].
    by destruct Hnul.
Qed.

Lemma accepted_all df :
  Forall accepted df → accepted_rows df = df ∧ refused_row df = None.
Proof.
  induction 1 as [|r df Hr _ [IH1 IH2]]; [done|].
  cbn [accepted_rows refused_row]. rewrite !decide_True by done.
  by rewrite IH1.
Qed.

Lemma refused_row_None df : refused_row df = None → Forall accepted df.
Proof.
  induction df as [|r df IH]; cbn [refused_row]; [constructor|].
  case_decide; [|done]. intros Hnone. constructor; auto.
Qed.

Lemma refused_row_Some df r : refused_row df = Some r → ¬ accepted r ∧ r ∈ df.
Proof.
  induction df as [|r0 df IH]; cbn [refused_row]; [done|].
  case_decide.
  - intros Hsome. destruct (IH Hsome). split; [done|by right].
  - intros [= ->]. split; [done|left].
Qed.

Lemma accepted_rows_Forall df : Forall accepted (accepted_rows df).
Proof.
  induction df as [|r df IH]; cbn [accepted_rows]; [constructor|].
  case_decide; by constructor.
Qed.

(** [executemany] inserts the records ahead of the first one that is not
    accepted, and raises what the INSERT of that one raises. *)
Lemma executemany_insert pid df s :
  pid ∈ p_id <$> projects s →
  Forall (λ t, t_id t < tasks_id_seq s) (tasks s) →
  executemany insert_task (save_rows pid df) s =
    (match refused_row df with
     | None => Ok tt
     | Some r => Raise (refusal r)
     end,
     {| projects := projects s;
        tasks := tasks s ++ inserted (tasks_id_seq s) (save_rows pid (accepted_rows df));
        projects_id_seq := projects_id_seq s;
        tasks_id_seq := tasks_id_seq s + Z.of_nat (length (accepted_rows df));
        committed_tasks := committed_tasks s |}).
Proof.
  revert s. induction df as [|r df IH]; intros s Hpid Hseq.
  - simpl. destruct s; simpl. by rewrite app_nil_r, Z.add_0_r.
  - cbn [save_rows fmap list_fmap executemany accepted_rows refused_row].
    unfold mbind, M_bind, bind.
    destruct (decide (accepted r)) as [Hr|Hr].
    + rewrite insert_task_accepted by done.
      fold (save_rows pid df). rewrite IH; simpl; [|done|].
      * f_equal. f_equal; [by rewrite <- app_assoc|lia].
      * apply Forall_app. split.
        -- eapply Forall_impl; [exact Hseq|]. simpl. intros; lia.
        -- repeat constructor. simpl. lia.
    + rewrite insert_task_refused by done. simpl.
      destruct s; simpl. by rewrite app_nil_r, Z.add_0_r.
Qed.

(** What [save_tasks] does under an existing project of a consistent
    store: it commits the new rows when every record is accepted; it
    raises [ValueError] and leaves the DELETE and the INSERTs ahead of the
    record pending when a string of the record holds NUL; it raises
    [NumericValueOutOfRange] and loses all uncommitted work when the
    number of the record is out of range. *)
Lemma save_tasks_outcome name df s pid :
  db_ok s →
  nul_free name →
  head (select_id_where_name name s) = Some pid →
  save_tasks name df s =
    match refused_row df with
    | None => (Ok tt, stored_after_save pid df s)
    | Some r =>
        if decide (texts_nul_free r)
        then (Raise NumericValueOutOfRange,
              rollback s (with_rows pid (accepted_rows df) s))
        else (Raise ValueError, with_rows pid (accepted_rows df) s)
    end.
Proof.
  intros Hok Hn Hid. rewrite (save_tasks_found _ _ _ _ Hn Hid).
  unfold with_commit, bind. cbn [delete_tasks_where_project_id].
  rewrite executemany_insert; simpl.
  - destruct (refused_row df) as [r|] eqn:Hr.
    + unfold refusal. by destruct (decide (texts_nul_free r)).
    + apply refused_row_None, accepted_all in Hr as [-> _]. done.
  - by apply select_id_found in Hid as [_ ?].
  - apply Forall_filter_keep, Hok.
Qed.

(** ** What [save_tasks] leaves alone *)

Lemma same_outside_refl pid s : same_outside pid s s.
Proof. done. Qed.

Lemma same_outside_trans pid s1 s2 s3 :
  same_outside pid s1 s2 → same_outside pid s2 s3 → same_outside pid s1 s3.
Proof. intros [H1 H2] [H3 H4]. split; congruence. Qed.

Lemma same_outside_commit pid s s' :
  same_outside pid s s' → same_outside pid s (commit s').
Proof. done. Qed.

Lemma same_outside_rollback pid s s' :
  settled_store s → same_outside pid s (rollback s s').
Proof. intros Hs. split; simpl; [done|]. by rewrite Hs. Qed.

Lemma same_outside_delete_tasks pid :
  respects (same_outside pid) (delete_tasks_where_project_id pid).
Proof.
  intros s. split; simpl; [done|].
  apply filter_all, Forall_forall. intros t Ht.
  by apply list_elem_of_filter in Ht as [? _].
Qed.

Lemma filter_owner_outside pid seq df :
  filter (λ t, t_project_id t ≠ Some pid) (inserted seq (save_rows pid df)) = [].
Proof.
  revert seq. induction df as [|r df IH]; intros seq; [done|].
  csimpl. rewrite filter_cons_False by (simpl; tauto). apply IH.
Qed.

Lemma same_outside_with_rows pid df s : same_outside pid s (with_rows pid df s).
Proof.
  split; simpl; [done|].
  rewrite filter_app, filter_owner_outside, app_nil_r.
  apply filter_all, Forall_forall. intros t Ht.
  by apply list_elem_of_filter in Ht as [? _].
Qed.

(** Whatever [save_tasks] itself deletes or inserts carries the id of the
    project saved.  Rows of other projects change only when the server
    refuses an INSERT while work of earlier calls is pending. *)
Lemma save_tasks_same_outside name df s pid :
  nul_free name →
  head (select_id_where_name name s) = Some pid →
  settled_store s ∨ (db_ok s ∧ Forall (λ r, int4 (S_No r)) df) →
  same_outside pid s (save_tasks name df s).2.
Proof.
  intros Hn Hid [Hs|[Hok Hdf]].
  - rewrite (save_tasks_found _ _ _ _ Hn Hid).
    assert (Hbody : respects (same_outside pid)
              (λ s0, bind (delete_tasks_where_project_id pid)
                       (λ _, executemany insert_task (save_rows pid df)) s0)).
    { apply respects_bind; [apply same_outside_trans|apply same_outside_delete_tasks|].
      intros _. apply respects_executemany_Forall;
        [apply same_outside_refl|apply same_outside_trans|].
      unfold save_rows. apply Forall_fmap, Forall_forall. intros r _ s0.
      destruct (decide (accepted r)) as [Hr|Hr].
      - cbv beta. unfold insert_task, mbind, M_bind.
        destruct Hr as (Hi & Ht & Hc & Hst).
        rewrite bind_param_ok by done. cbn beta.
        rewrite bind_param_ok by done. cbn beta.
        rewrite bind_param_ok by done. cbn beta.
        repeat case_decide; simpl; try done.
        split; simpl; [done|].
        rewrite filter_app, filter_cons_False, filter_nil, app_nil_r; [done|].
        simpl. tauto.
      - cbv beta. by rewrite insert_task_refused. }
    unfold with_commit. specialize (Hbody s). cbv beta in Hbody.
    destruct (bind _ _ s) as [[a|e] s1]; simpl in *; [done|].
    destruct (client_side e); simpl; [done|].
    by apply same_outside_rollback.
  - rewrite (save_tasks_outcome _ _ _ pid) by done.
    destruct (refused_row df) as [r|] eqn:Hr.
    + apply refused_row_Some in Hr as [Hno Hr].
      rewrite Forall_forall in Hdf. specialize (Hdf _ Hr).
      rewrite decide_False; [apply same_outside_with_rows|].
      intros Ht. apply Hno. by split.
    + apply same_outside_with_rows.
Qed.

(** The statements of [save_tasks] commit nothing. *)
Lemma save_body_committed pid df s :
  committed_tasks (bind (delete_tasks_where_project_id pid)
                     (λ _, executemany insert_task (save_rows pid df)) s).2 =
  committed_tasks s.
Proof.
  apply (respects_bind (λ s s', committed_tasks s' = committed_tasks s)).
  - congruence.
  - by intros s0.
  - intros _. apply respects_executemany; [done|congruence|].
    intros [[[[p sno] task] comments] status] s0.
    unfold insert_task, mbind, M_bind, bind, param.
    destruct (to_text task); [|done]. destruct (to_text comments); [|done].
    destruct (to_text status); [|done]. by repeat case_decide.
Qed.

(** In a store without uncommitted work, what [save_tasks] commits of the
    other projects is what was committed before. *)
Lemma save_tasks_committed_outside name df s pid :
  nul_free name →
  head (select_id_where_name name s) = Some pid →
  settled_store s →
  filter (λ t, t_project_id t ≠ Some pid) (committed_tasks (save_tasks name df s).2) =
    filter (λ t, t_project_id t ≠ Some pid) (committed_tasks s).
Proof.
  intros Hn Hid Hs.
  destruct (save_tasks_same_outside name df s pid Hn Hid (or_introl Hs)) as [_ Hview].
  revert Hview. rewrite (save_tasks_found _ _ _ _ Hn Hid). unfold with_commit.
  pose proof (save_body_committed pid df s) as Hbody.
  destruct (bind _ _ s) as [[a|e] s1]; simpl in *.
  - intros ->. by rewrite Hs.
  - destruct (client_side e); simpl; [by rewrite Hbody|done].
Qed.

(** C9, for a store without uncommitted work: [save_tasks] on an existing
    project leaves the project table as it was, and so the task rows of
    every other project, those the connection sees and those committed.
    Whatever the call itself deletes or inserts carries the id of the
    project saved.  As far as the connection sees, the same holds with
    uncommitted work around, in a consistent store, as long as every
    "S.No." of the frame fits INTEGER, so that the server refuses
    nothing. *)
Theorem save_tasks_frame name df s :
  name ∈ p_name <$> projects s →
  settled_store s ∨ (db_ok s ∧ Forall (λ r, int4 (S_No r)) df) →
  ∃ pid,
    get_project_id name s = (Ok (Some pid), s) ∧
    same_outside pid s (save_tasks name df s).2 ∧
    (settled_store s →
     filter (λ t, t_project_id t ≠ Some pid) (committed_tasks (save_tasks name df s).2) =
       filter (λ t, t_project_id t ≠ Some pid) (committed_tasks s)).
Proof.
  intros Hin Hcase. pose proof (stored_name_nul_free _ _ Hin) as Hn.
  destruct (select_id_present _ _ Hin) as (pid & Hid & _).
  exists pid. split; [by rewrite get_project_id_eq, Hid|]. split.
  - by apply save_tasks_same_outside.
  - by apply save_tasks_committed_outside.
Qed.

Lemma save_tasks_frame_witness :
  ("Audit" ∈ p_name <$> projects ops_store) ∧
  settled_store ops_store ∧
  (∃ pid,
     get_project_id "Audit" ops_store = (Ok (Some pid), ops_store) ∧
     same_outside pid ops_store
       (save_tasks "Audit" [Rec 2147483648 "Archive" EmptyString "Pending"] ops_store).2 ∧
     (settled_store ops_store →
      filter (λ t, t_project_id t ≠ Some pid)
        (committed_tasks
           (save_tasks "Audit" [Rec 2147483648 "Archive" EmptyString "Pending"]
              ops_store).2) =
      filter (λ t, t_project_id t ≠ Some pid) (committed_tasks ops_store))) ∧
  (db_ok pending_store ∧
   Forall (λ r, int4 (S_No r)) [Rec 7 with_nul EmptyString "Pending"]) ∧
  (∃ pid,
     get_project_id "Audit" pending_store = (Ok (Some pid), pending_store) ∧
     same_outside pid pending_store
       (save_tasks "Audit" [Rec 7 with_nul EmptyString "Pending"] pending_store).2).
Proof.
  assert (H : "Audit" ∈ p_name <$> projects ops_store) by by_compute.
  assert (Hs : settled_store ops_store) by reflexivity.
  assert (H' : "Audit" ∈ p_name <$> projects pending_store) by by_compute.
  assert (Hdf : Forall (λ r, int4 (S_No r)) [Rec 7 with_nul EmptyString "Pending"])
    by by_compute.
  split_and!; [exact H|exact Hs| |exact pending_store_ok|exact Hdf|].
  - exact (save_tasks_frame _ _ _ H (or_introl Hs)).
  - destruct (save_tasks_frame "Audit" [Rec 7 with_nul EmptyString "Pending"]
                pending_store H' (or_intror (conj pending_store_ok Hdf)))
      as (pid & Hid & Hsame & _).
    exists pid. by split.
Defined.

(** C9 as stated fails, whichever task table is meant.  In
    [pending_store] the task row of "Ops" is deleted but the DELETE is not
    committed.  A save under "Audit" with an "S.No." beyond INTEGER is
    refused by the server, the connection is replaced, and the layer sees
    the row of "Ops" again.  A save under "Audit" that succeeds commits
    the pending DELETE, and the row of "Ops" is gone from the committed
    table. *)
Lemma save_tasks_frame_pending :
  db_ok pending_store ∧
  ("Audit" ∈ p_name <$> projects pending_store) ∧
  get_project_id "Audit" pending_store = (Ok (Some 1), pending_store) ∧
  (load_tasks "Ops" pending_store).1 = Ok [] ∧
  (save_tasks "Audit" [Rec 2147483648 "Archive" EmptyString "Pending"] pending_store).1 =
    Raise NumericValueOutOfRange ∧
  (load_tasks "Ops"
     (save_tasks "Audit" [Rec 2147483648 "Archive" EmptyString "Pending"]
        pending_store).2).1 = Ok [Rec 1 "Rotate keys" EmptyString "Resolved"] ∧
  ¬ same_outside 1 pending_store
      (save_tasks "Audit" [Rec 2147483648 "Archive" EmptyString "Pending"] pending_store).2 ∧
  (save_tasks "Audit" [Rec 1 "Archive" EmptyString "Pending"] pending_store).1 = Ok tt ∧
  filter (λ t, t_project_id t ≠ Some 1)
    (committed_tasks
       (save_tasks "Audit" [Rec 1 "Archive" EmptyString "Pending"] pending_store).2) ≠
  filter (λ t, t_project_id t ≠ Some 1) (committed_tasks pending_store).
Proof.
  split_and!.
  - exact pending_store_ok.
  - by_compute.
  - reflexivity.
  - reflexivity.
  - reflexivity.
  - reflexivity.
  - intros [_ H]. vm_compute in H. discriminate.
  - reflexivity.
  - intros H. vm_compute in H. discriminate.
Qed.

(** ** Saving and loading again *)

Global Instance sno_le_total : Total sno_le.
Proof.
  intros a b. unfold sno_le.
  destruct (t_sno a), (t_sno b); try tauto. lia.
Qed.

Global Instance id_le_total : Total id_le.
Proof. intros a b. unfold id_le. lia. Qed.

Global Instance id_le_trans : Transitive id_le.
Proof. intros a b c. unfold id_le. lia. Qed.

(** The record [load_tasks] makes of a stored row. *)
Lemma to_frame_fetched (l : list task_row) :
  to_frame ((λ t, (fetched_sno (t_sno t), str <$> t_task t, str <$> t_comments t,
                   str <$> t_status t)) <$> l) =
  row_record <$> l.
Proof.
  unfold to_frame. rewrite <- list_fmap_compose. apply list_fmap_ext.
  intros _ [i p sno task comments status] _. unfold row_record. simpl.
  by destruct sno, task, comments, status.
Qed.

Lemma inserted_back pid seq df :
  Forall texts_nul_free df →
  row_record <$> inserted seq (save_rows pid df) = df.
Proof.
  intros Hdf. revert seq.
  induction Hdf as [|[sno task comments status] df (Ht & Hc & Hs) _ IH]; intros seq;
    [done|].
  csimpl. rewrite IH. unfold row_record. simpl in *.
  by rewrite !str_text_of.
Qed.

Lemma inserted_owner pid seq df :
  Forall (λ t, t_project_id t = Some pid ∧ is_Some (t_sno t))
         (inserted seq (save_rows pid df)).
Proof.
  revert seq. induction df as [|r df IH]; intros seq; csimpl; [constructor|].
  constructor; [simpl; eauto|apply IH].
Qed.

Lemma Sorted_fmap_on {A B} (Q : A → Prop) (R1 : relation A) (R2 : relation B)
    (f : A → B) (l : list A) :
  (∀ x y, Q x → Q y → R1 x y → R2 (f x) (f y)) →
  Forall Q l → Sorted R1 l → Sorted R2 (f <$> l).
Proof.
  intros Hf HQ Hs. induction Hs as [|x l _ IH Hhd]; csimpl; [constructor|].
  apply Forall_cons in HQ as [Hx HQ]. constructor; [auto|].
  destruct Hhd as [|y l Hxy]; csimpl; constructor.
  apply Forall_cons in HQ as [Hy _]. auto.
Qed.

(** The rows of project [pid] once [df] is stored are the new ones. *)
Lemma with_rows_owner pid df s :
  filter (λ t, t_project_id t = Some pid) (tasks (with_rows pid df s)) =
  inserted (tasks_id_seq s) (save_rows pid df).
Proof.
  simpl. rewrite filter_app.
  rewrite filter_none, app_nil_l; last first.
  { apply Forall_forall. intros t Ht.
    apply list_elem_of_filter in Ht as [? _]. tauto. }
  apply filter_all. eapply Forall_impl; [apply inserted_owner|]. simpl. tauto.
Qed.

(** C1, with the bounds the store puts on a record: in a consistent store,
    under an existing project, saving a frame whose "S.No." values all fit
    INTEGER and whose strings hold no NUL succeeds, and loading the project
    afterwards returns the records saved (the surrogate id is not part of
    a record), in ascending order of "S.No.". *)
Theorem save_then_load_in_range name df s :
  db_ok s →
  name ∈ p_name <$> projects s →
  Forall (λ r, int4 (S_No r) ∧ texts_nul_free r) df →
  save_then_load name df s.
Proof.
  intros Hok Hin Hdf. pose proof (stored_name_nul_free _ _ Hin) as Hn.
  destruct (select_id_present _ _ Hin) as (pid & Hid & Hpid).
  assert (Htexts : Forall texts_nul_free df).
  { eapply Forall_impl; [exact Hdf|]. simpl. tauto. }
  destruct (accepted_all df Hdf) as [_ Hnone].
  unfold save_then_load. exists (stored_after_save pid df s). eexists. split_and!.
  - by rewrite (save_tasks_outcome _ _ _ pid), Hnone.
  - by rewrite (load_tasks_found _ _ pid).
  - unfold select_tasks_where_project_id_order_by_sno.
    rewrite to_frame_fetched.
    change (tasks (stored_after_save pid df s)) with (tasks (with_rows pid df s)).
    rewrite with_rows_owner, merge_sort_Permutation. by rewrite inserted_back.
  - unfold select_tasks_where_project_id_order_by_sno.
    rewrite to_frame_fetched.
    change (tasks (stored_after_save pid df s)) with (tasks (with_rows pid df s)).
    rewrite with_rows_owner.
    eapply (Sorted_fmap_on (λ t, is_Some (t_sno t)) sno_le).
    + intros x y [a Ha] [b Hb]. unfold sno_le, row_record. simpl.
      rewrite Ha, Hb. done.
    + eapply Forall_impl.
      * rewrite merge_sort_Permutation. apply inserted_owner.
      * simpl. tauto.
    + apply (Sorted_merge_sort _).
Qed.

Lemma save_then_load_in_range_witness :
  save_then_load "Audit"
    [Rec 3 "Close ticket" EmptyString "Pending"; Rec 1 "Review logs" "done" "Resolved";
     Rec 3 "Notify" "mail" "Partial"] ops_store.
Proof.
  apply save_then_load_in_range.
  - exact ops_store_ok.
  - by_compute.
  - by_compute.
Defined.

(** C1 as stated fails, in two ways.  An "S.No." beyond INTEGER makes the
    server refuse the INSERT, so nothing is saved and the next load returns
    the old rows.  A NUL in a string makes psycopg2 give up on the INSERT
    after the DELETE has run, and the next load returns the empty frame. *)
Lemma save_then_load_refused :
  db_ok audit_store ∧
  ("Audit" ∈ p_name <$> projects audit_store) ∧
  save_tasks "Audit" [Rec 2147483648 "Review logs" EmptyString "Pending"] audit_store =
    (Raise NumericValueOutOfRange, audit_store) ∧
  ¬ save_then_load "Audit" [Rec 2147483648 "Review logs" EmptyString "Pending"] audit_store ∧
  (save_tasks "Audit" [Rec 1 with_nul EmptyString "Pending"] audit_store).1 =
    Raise ValueError ∧
  (load_tasks "Audit"
     (save_tasks "Audit" [Rec 1 with_nul EmptyString "Pending"] audit_store).2).1 = Ok [] ∧
  ¬ save_then_load "Audit" [Rec 1 with_nul EmptyString "Pending"] audit_store.
Proof.
  split_and!.
  - exact audit_store_ok.
  - by_compute.
  - reflexivity.
  - intros (s1 & out & Hsave & _). vm_compute in Hsave. discriminate.
  - reflexivity.
  - reflexivity.
  - intros (s1 & out & Hsave & _). vm_compute in Hsave. discriminate.
Qed.

(** ** Creating and listing projects *)

Lemma count_key {A B} `{EqDecision B} (f : A → B) (l : list A) (k : B) :
  NoDup (f <$> l) → k ∈ f <$> l →
  length (filter (λ x, f x = k) l) = 1%nat.
Proof.
  induction l as [|x l IH]; csimpl; intros Hnd Hin.
  - by apply elem_of_nil in Hin.
  - apply NoDup_cons in Hnd as [Hx Hnd]. rewrite filter_cons.
    destruct (decide (f x = k)) as [<-|Hne].
    + simpl. f_equal. rewrite filter_none; [done|].
      apply Forall_forall. intros y Hy Heq. apply Hx. rewrite <- Heq.
      by apply list_elem_of_fmap_2.
    + apply IH; [done|]. apply elem_of_cons in Hin as [->|]; done.
Qed.

Lemma insert_project_duplicate name s :
  name ∈ p_name <$> projects s →
  ∃ s', insert_project name s = (Raise UniqueViolation, s') ∧
        projects s' = projects s ∧ tasks s' = tasks s ∧
        committed_tasks s' = committed_tasks s.
Proof.
  intros Hin. pose proof (stored_name_nul_free _ _ Hin) as Hn.
  unfold insert_project, mbind, M_bind. rewrite bind_param_ok by done. cbn beta.
  rewrite str_text_of by done.
  case_decide; [by eexists|].
  rewrite decide_True by done. by eexists.
Qed.

(** C6: in a store that meets the UNIQUE constraint on [projects.name],
    [create_project] with a name that is taken raises the unique violation
    to its caller and leaves the project table as it was, with exactly one
    row of that name.  The server has refused a statement, so the task
    table is afterwards the committed one: it is the task table of before
    unless work was pending, which is lost. *)
Theorem create_project_duplicate name s :
  NoDup (p_name <$> projects s) →
  name ∈ p_name <$> projects s →
  ∃ s',
    create_project name s = (Raise UniqueViolation, s') ∧
    projects s' = projects s ∧
    tasks s' = committed_tasks s ∧
    (settled_store s → tasks s' = tasks s) ∧
    length (filter (λ p, p_name p = name) (projects s')) = 1%nat.
Proof.
  intros Hok Hin. destruct (insert_project_duplicate _ _ Hin) as (s1 & Hs1 & _).
  exists (rollback s s1). unfold create_project, with_commit. rewrite Hs1.
  split_and!; try done. simpl. by apply count_key.
Qed.

Lemma create_project_duplicate_witness :
  ∃ s',
    create_project "Audit" pending_store = (Raise UniqueViolation, s') ∧
    projects s' = projects pending_store ∧
    tasks s' = committed_tasks pending_store ∧
    (settled_store pending_store → tasks s' = tasks pending_store) ∧
    length (filter (λ p, p_name p = "Audit") (projects s')) = 1%nat.
Proof.
  apply create_project_duplicate; by_compute.
Defined.

Lemma key_inj {A B} (f : A → B) (l : list A) x y :
  NoDup (f <$> l) → x ∈ l → y ∈ l → f x = f y → x = y.
Proof.
  induction l as [|z l IH]; csimpl; intros Hnd Hx Hy Heq.
  - by apply elem_of_nil in Hx.
  - apply NoDup_cons in Hnd as [Hz Hnd].
    apply elem_of_cons in Hx as [->|Hx]; apply elem_of_cons in Hy as [->|Hy];
      auto.
    + exfalso. apply Hz. rewrite Heq. by apply list_elem_of_fmap_2.
    + exfalso. apply Hz. rewrite <- Heq. by apply list_elem_of_fmap_2.
Qed.

Lemma sorted_ids_Sorted (l : list project_row) :
  StronglySorted Z.lt (p_id <$> l) → Sorted id_le l.
Proof.
  induction l as [|p l IH]; csimpl; intros Hs; [constructor|].
  apply StronglySorted_inv in Hs as [Hs Hp]. constructor; [auto|].
  destruct l as [|q l]; constructor.
  apply Forall_cons in Hp as [Hq _]. unfold id_le. lia.
Qed.

(** In a consistent store the project rows already lie in the order
    [ORDER BY id] asks for. *)
Lemma merge_sort_projects s : db_ok s → merge_sort id_le (projects s) = projects s.
Proof.
  intros Hok. apply (Sorted_unique_strong id_le).
  - intros x1 x2 Hx1 Hx2 H12 H21.
    rewrite merge_sort_Permutation in Hx1.
    apply (key_inj p_id (projects s)); [|done|done|unfold id_le in *; lia].
    apply StronglySorted_lt_NoDup, Hok.
  - apply (Sorted_merge_sort _).
  - apply sorted_ids_Sorted, Hok.
  - apply merge_sort_Permutation.
Qed.

Lemma get_projects_ok s :
  db_ok s → get_projects s = (Ok (p_name <$> projects s), s).
Proof.
  intros Hok. unfold get_projects, query, select_name_order_by_id.
  by rewrite merge_sort_projects.
Qed.

Lemma fmap_filter_name name (l : list project_row) :
  p_name <$> filter (λ p, p_name p ≠ name) l =
  filter (λ n, n ≠ name) (p_name <$> l).
Proof.
  induction l as [|p l IH]; [done|]. csimpl. rewrite !filter_cons.
  destruct (decide (p_name p ≠ name)); csimpl; by rewrite IH.
Qed.

Lemma create_project_fresh name s :
  db_ok s → nul_free name → name ∉ p_name <$> projects s →
  create_project name s =
    (Ok tt,
     commit {| projects := projects s ++ [ProjectRow (projects_id_seq s) (text_of name)];
               tasks := tasks s;
               projects_id_seq := projects_id_seq s + 1;
               tasks_id_seq := tasks_id_seq s;
               committed_tasks := committed_tasks s |}).
Proof.
  intros Hok Hn Hfresh. unfold create_project, with_commit, insert_project,
    mbind, M_bind.
  rewrite bind_param_ok by done. cbn beta. rewrite str_text_of by done.
  rewrite decide_False; [by rewrite decide_False|].
  intros Hin. apply list_elem_of_fmap in Hin as (p & Heq & Hp).
  pose proof (ok_projects_seq _ Hok) as Hseq.
  rewrite Forall_forall in Hseq. specialize (Hseq _ Hp). lia.
Qed.

Lemma create_project_nul name s :
  ¬ nul_free name → create_project name s = (Raise ValueError, s).
Proof.
  intros Hn. unfold create_project, with_commit, insert_project, mbind, M_bind.
  by rewrite bind_param_nul.
Qed.


Lemma delete_project_ok name s :
  nul_free name →
  delete_project name s =
    (Ok tt,
     commit {| projects := filter (λ p, p_name p ≠ name) (projects s);
               tasks := filter (λ t, ¬ refers_to (select_id_where_name name s) t) (tasks s);
               projects_id_seq := projects_id_seq s;
               tasks_id_seq := tasks_id_seq s;
               committed_tasks := committed_tasks s |}).
Proof.
  intros Hn. unfold delete_project, with_commit, delete_projects_where_name,
    mbind, M_bind.
  by rewrite bind_param_ok.
Qed.








(** ** Every task has its project *)

(** C8: in every store the layer reaches from the empty one, each task row
    carries a project id, and exactly one project row has that id. *)
Theorem tasks_have_one_owner ops :
  Forall (λ t, ∃ pid,
            t_project_id t = Some pid ∧
            length (filter (λ p, p_id p = pid)
                      (projects (run ops empty_store))) = 1%nat)
         (tasks (run ops empty_store)).
Proof.
  assert (Hok : db_ok (run ops empty_store)) by apply run_ok, empty_store_ok.
  eapply Forall_impl; [exact (ok_owner _ _ (ok_tasks _ Hok))|]. simpl.
  intros t (pid & Hpid & Hin).
  exists pid. split; [done|].
  apply count_key; [|done]. apply StronglySorted_lt_NoDup, Hok.
Qed.

Example ops_store_rows :
  tasks ops_store =
    [TaskRow 1 (Some 1) (Some 2) (Some (Text "Patch CVE" I)) (Some (Text "urgent" I))
       (Some (Text "Partial" I));
     TaskRow 2 (Some 1) (Some 1) (Some (Text "Review logs" I)) (Some (Text EmptyString I))
       (Some (Text "Pending" I));
     TaskRow 3 (Some 2) (Some 1) (Some (Text "Rotate keys" I)) (Some (Text EmptyString I))
       (Some (Text "Resolved" I))] ∧
  projects ops_store = [ProjectRow 1 (Text "Audit" I); ProjectRow 2 (Text "Ops" I)] ∧
  committed_tasks ops_store = tasks ops_store.
Proof. vm_compute. done. Qed.

(** What a save that psycopg2 gives up on leaves behind, and what becomes
    of it: the DELETE is visible at once and is committed by the next call
    that commits. *)
Example pending_store_rows :
  (load_tasks "Ops" ops_store).1 = Ok [Rec 1 "Rotate keys" EmptyString "Resolved"] ∧
  (save_tasks "Ops" [Rec 1 with_nul EmptyString "Pending"] ops_store).1 = Raise ValueError ∧
  (load_tasks "Ops" pending_store).1 = Ok [] ∧
  length (committed_tasks pending_store) = 3%nat ∧
  length (committed_tasks (run [CreateProject "Payroll"] pending_store)) = 2%nat.
Proof. vm_compute. done. Qed.

(** ** The frame [load_tasks] hands out *)

(** C10: for a name without NUL, over a task table whose "S.No." cells
    hold INTEGER values or NULL, [load_tasks] returns a frame with one
    record for each task row of the project and no other, in the order of
    [ORDER BY sno], and the record of a row is: in "S.No." the integer
    stored, or 0 for NULL; in "Task" and in "Comments" the string stored,
    or the empty string for NULL; in "Status" the string stored, or
    "Pending" for NULL.  The coercion itself, on whatever tuples the cursor
    may hand over, also turns an "S.No." that is no number into 0. *)
Theorem load_tasks_well_formed name s :
  nul_free name →
  Forall sno_int4 (tasks s) →
  (∃ pid rows,
     get_project_id name s = (Ok pid, s) ∧
     rows ≡ₚ match pid with
             | Some pid => filter (λ t, t_project_id t = Some pid) (tasks s)
             | None => []
             end ∧
     Sorted sno_le rows ∧
     load_tasks name s =
       (Ok ((λ t, {| S_No := match t_sno t with Some n => n | None => 0 end;
                     Task := match t_task t with
                             | Some x => str x | None => EmptyString end;
                     Comments := match t_comments t with
                                 | Some x => str x | None => EmptyString end;
                     Status := match t_status t with
                               | Some x => str x | None => "Pending" end |}) <$> rows),
        s)) ∧
  (∀ rows : list fetched,
     Forall (λ row, cell_int4 row.1.1.1) rows →
     to_frame rows =
       (λ row, {| S_No := match row.1.1.1 with
                          | SnoInt n => n | SnoNone | SnoOther => 0 end;
                  Task := match row.1.1.2 with
                          | Some x => x | None => EmptyString end;
                  Comments := match row.1.2 with
                              | Some x => x | None => EmptyString end;
                  Status := match row.2 with
                            | Some x => x | None => "Pending" end |}) <$> rows).
Proof.
  intros Hn _. split.
  - rewrite get_project_id_eq by done.
    destruct (head (select_id_where_name name s)) as [pid|] eqn:Hid.
    + exists (Some pid),
        (merge_sort sno_le (filter (λ t, t_project_id t = Some pid) (tasks s))).
      split_and!; [done|apply merge_sort_Permutation|apply (Sorted_merge_sort _)|].
      rewrite (load_tasks_found _ _ _ Hn Hid).
      unfold select_tasks_where_project_id_order_by_sno.
      by rewrite to_frame_fetched.
    + exists None, []. split_and!; [done|done|constructor|].
      by apply load_tasks_missing.
  - intros rows _. unfold to_frame. apply list_fmap_ext.
    intros _ [[[sno task] comments] status] _. simpl.
    by destruct sno, task, comments, status.
Qed.

Lemma load_tasks_well_formed_witness :
  nul_free "Audit" ∧
  Forall sno_int4 (tasks legacy_store) ∧
  load_tasks "Audit" legacy_store =
    (Ok [Rec 4 "Patch CVE" EmptyString "Partial"; Rec 0 EmptyString EmptyString "Pending"],
     legacy_store) ∧
  to_frame [(SnoOther, Some "Patch CVE", None, None); (SnoInt 7, None, Some "x", Some "Partial")] =
    [Rec 0 "Patch CVE" EmptyString "Pending"; Rec 7 EmptyString "x" "Partial"].
Proof.
  assert (Hs : Forall sno_int4 (tasks legacy_store)) by by_compute.
  assert (Hr : Forall (λ row : fetched, cell_int4 row.1.1.1)
                 [(SnoOther, Some "Patch CVE", None, None);
                  (SnoInt 7, None, Some "x", Some "Partial")]) by by_compute.
  destruct (load_tasks_well_formed "Audit" legacy_store I Hs) as [_ Hframe].
  split_and!; [exact I|exact Hs|reflexivity|].
  rewrite (Hframe _ Hr). reflexivity.
Defined.

Example load_tasks_coerces_null :
  load_tasks "Audit" legacy_store =
    (Ok [Rec 4 "Patch CVE" EmptyString "Partial"; Rec 0 EmptyString EmptyString "Pending"],
     legacy_store).
Proof. reflexivity. Qed.

(** * Further properties of the layer *)

(** ** What [save_tasks] raises, and what it leaves behind *)

(** X1: in a consistent store, [save_tasks] on an existing project
    succeeds exactly when every record of the frame has an "S.No." that
    fits INTEGER and strings without NUL.  Otherwise the first record that
    is not so decides.  If its strings are fine and its number is out of
    range, the server refuses the INSERT: the call raises
    [NumericValueOutOfRange], and afterwards the task table is the
    committed one.  If one of its strings holds NUL, psycopg2 gives up
    before sending the INSERT: the call raises [ValueError], and the DELETE
    and the INSERTs of the records before it stay in the open transaction,
    visible and uncommitted. *)
Theorem save_tasks_outcomes name df s :
  db_ok s →
  name ∈ p_name <$> projects s →
  ((save_tasks name df s).1 = Ok tt ↔
   Forall (λ r, int4 (S_No r) ∧ texts_nul_free r) df) ∧
  (∀ r, refused_row df = Some r → texts_nul_free r →
     ∃ s', save_tasks name df s = (Raise NumericValueOutOfRange, s') ∧
           projects s' = projects s ∧
           tasks s' = committed_tasks s ∧
           committed_tasks s' = committed_tasks s) ∧
  (∀ r, refused_row df = Some r → ¬ texts_nul_free r →
     ∃ pid s',
       get_project_id name s = (Ok (Some pid), s) ∧
       save_tasks name df s = (Raise ValueError, s') ∧
       projects s' = projects s ∧
       tasks s' = (filter (λ t, t_project_id t ≠ Some pid) (tasks s) ++
                   inserted (tasks_id_seq s) (save_rows pid (accepted_rows df)))%list ∧
       committed_tasks s' = committed_tasks s).
Proof.
  intros Hok Hin. pose proof (stored_name_nul_free _ _ Hin) as Hn.
  destruct (select_id_present _ _ Hin) as (pid & Hid & _).
  pose proof (save_tasks_outcome name df s pid Hok Hn Hid) as Hout.
  split_and!.
  - split.
    + intros Hsave. apply refused_row_None.
      destruct (refused_row df) as [r|]; [|done].
      rewrite Hout in Hsave. by destruct (decide (texts_nul_free r)).
    + intros Hdf. destruct (accepted_all df Hdf) as [_ Hnone].
      by rewrite Hout, Hnone.
  - intros r Hr Ht. rewrite Hr, decide_True in Hout by done.
    eexists. by split.
  - intros r Hr Ht. rewrite Hr, decide_False in Hout by done.
    exists pid. eexists. split; [by rewrite get_project_id_eq, Hid|]. by split.
Qed.

Lemma save_tasks_outcomes_witness :
  (save_tasks "Audit" [Rec 5 "Archive" "old" "Pending"] ops_store).1 = Ok tt ∧
  (∃ s', save_tasks "Audit" [Rec 1 "Archive" "old" "Pending";
                             Rec (-2147483649) "Purge" "old" "Pending"] ops_store =
           (Raise NumericValueOutOfRange, s') ∧
         projects s' = projects ops_store ∧
         tasks s' = committed_tasks ops_store ∧
         committed_tasks s' = committed_tasks ops_store) ∧
  (∃ pid s',
     get_project_id "Audit" ops_store = (Ok (Some pid), ops_store) ∧
     save_tasks "Audit" [Rec 1 "Archive" "old" "Pending";
                         Rec 2 with_nul "old" "Pending"] ops_store =
       (Raise ValueError, s') ∧
     projects s' = projects ops_store ∧
     tasks s' =
       (filter (λ t, t_project_id t ≠ Some pid) (tasks ops_store) ++
        inserted (tasks_id_seq ops_store)
          (save_rows pid (accepted_rows [Rec 1 "Archive" "old" "Pending";
                                         Rec 2 with_nul "old" "Pending"])))%list ∧
     committed_tasks s' = committed_tasks ops_store).
Proof.
  assert (Hin : "Audit" ∈ p_name <$> projects ops_store) by by_compute.
  split_and!.
  - apply (save_tasks_outcomes "Audit" _ ops_store ops_store_ok Hin). by_compute.
  - apply (proj1 (proj2 (save_tasks_outcomes "Audit" _ ops_store ops_store_ok Hin))
             (Rec (-2147483649) "Purge" "old" "Pending")); [reflexivity|by_compute].
  - apply (proj2 (proj2 (save_tasks_outcomes "Audit" _ ops_store ops_store_ok Hin))
             (Rec 2 with_nul "old" "Pending")); [reflexivity|by_compute].
Defined.

(** ** Saving and loading, exactly *)

Lemma load_tasks_stored name df s pid :
  nul_free name →
  head (select_id_where_name name s) = Some pid →
  load_tasks name (stored_after_save pid df s) =
    (Ok (row_record <$> merge_sort sno_le (inserted (tasks_id_seq s) (save_rows pid df))),
     stored_after_save pid df s).
Proof.
  intros Hn Hid. rewrite (load_tasks_found _ _ pid) by done.
  unfold select_tasks_where_project_id_order_by_sno.
  rewrite to_frame_fetched.
  change (tasks (stored_after_save pid df s)) with (tasks (with_rows pid df s)).
  by rewrite with_rows_owner.
Qed.

Lemma sorted_inserted pid seq df :
  Forall texts_nul_free df →
  row_record <$> merge_sort sno_le (inserted seq (save_rows pid df)) ≡ₚ df ∧
  sno_ascending (row_record <$> merge_sort sno_le (inserted seq (save_rows pid df))).
Proof.
  intros Hdf. split.
  - rewrite merge_sort_Permutation.
    by replace (row_record <$> inserted seq (save_rows pid df)) with df
      by (symmetry; exact (inserted_back pid seq df Hdf)).
  - eapply (Sorted_fmap_on (λ t, is_Some (t_sno t)) sno_le).
    + intros x y [a Ha] [b Hb]. unfold sno_le, row_record. simpl.
      by rewrite Ha, Hb.
    + eapply Forall_impl.
      * rewrite merge_sort_Permutation. apply inserted_owner.
      * simpl. tauto.
    + apply (Sorted_merge_sort _).
Qed.

Lemma sno_strict_ascending df : sno_strict df → sno_ascending df.
Proof.
  unfold sno_strict, sno_ascending.
  induction df as [|r df IH]; csimpl; intros Hs; [constructor|].
  apply StronglySorted_inv in Hs as [Hs Hr]. constructor; [auto|].
  destruct df as [|q df]; constructor.
  apply Forall_cons in Hr as [Hq _]. lia.
Qed.

(** A frame with strictly ascending "S.No." is the only ascending
    arrangement of its records. *)
Lemma sno_strict_unique df out :
  sno_strict df → out ≡ₚ df → sno_ascending out → out = df.
Proof.
  intros Hdf Hperm Hout.
  assert (Htrans : Transitive (λ a b : record, S_No a ≤ S_No b))
    by (intros a b c; lia).
  apply (Sorted_unique_strong (λ a b : record, S_No a ≤ S_No b));
    [|done|by apply sno_strict_ascending|done].
  intros x1 x2 Hx1 Hx2 H12 H21. rewrite Hperm in Hx1.
  apply (key_inj S_No df); [|done|done|lia].
  by apply StronglySorted_lt_NoDup.
Qed.

(** Saving an accepted, strictly ascending frame and loading it again. *)
Lemma save_load_strict name df s :
  db_ok s →
  name ∈ p_name <$> projects s →
  Forall accepted df →
  sno_strict df →
  ∃ s1, save_tasks name df s = (Ok tt, s1) ∧
        load_tasks name s1 = (Ok df, s1).
Proof.
  intros Hok Hin Hdf Hstrict. pose proof (stored_name_nul_free _ _ Hin) as Hn.
  destruct (select_id_present _ _ Hin) as (pid & Hid & _).
  destruct (accepted_all df Hdf) as [_ Hnone].
  exists (stored_after_save pid df s).
  split; [by rewrite (save_tasks_outcome _ _ _ pid), Hnone|].
  rewrite (load_tasks_stored _ _ _ _ Hn Hid). do 2 f_equal.
  assert (Htexts : Forall texts_nul_free df).
  { eapply Forall_impl; [exact Hdf|]. unfold accepted. tauto. }
  destruct (sorted_inserted pid (tasks_id_seq s) df Htexts) as [Hperm Hsorted].
  by apply sno_strict_unique.
Qed.

(** X2: in a consistent store, a frame whose "S.No." values are strictly
    ascending and fit INTEGER, and whose strings hold no NUL, comes back
    from [save_tasks] followed by [load_tasks] exactly as it was, row for
    row. *)
Theorem save_then_load_exact name df s :
  db_ok s →
  name ∈ p_name <$> projects s →
  Forall (λ r, int4 (S_No r) ∧ texts_nul_free r) df →
  sno_strict df →
  ∃ s1, save_tasks name df s = (Ok tt, s1) ∧
        load_tasks name s1 = (Ok df, s1).
Proof. apply save_load_strict. Qed.

Lemma save_then_load_exact_witness :
  ∃ s1, save_tasks "Ops" [Rec 1 "Rotate keys" "weekly" "Resolved";
                          Rec 2 "Renew cert" "due" "Pending";
                          Rec 5 "Audit logs" "later" "Partial"] ops_store = (Ok tt, s1) ∧
        load_tasks "Ops" s1 =
          (Ok [Rec 1 "Rotate keys" "weekly" "Resolved";
               Rec 2 "Renew cert" "due" "Pending";
               Rec 5 "Audit logs" "later" "Partial"], s1).
Proof.
  apply save_then_load_exact.
  - exact ops_store_ok.
  - by_compute.
  - by_compute.
  - unfold sno_strict. by_compute.
Defined.

(** ** What one project's operations do to the others *)

(** [load_tasks] depends on the store only through the id the name resolves
    to and the task rows carrying that id. *)
Lemma load_tasks_same other s s' :
  head (select_id_where_name other s') = head (select_id_where_name other s) →
  (∀ pid, head (select_id_where_name other s) = Some pid →
     filter (λ t, t_project_id t = Some pid) (tasks s') =
     filter (λ t, t_project_id t = Some pid) (tasks s)) →
  (load_tasks other s').1 = (load_tasks other s).1.
Proof.
  intros Hhead Hrows.
  destruct (decide (nul_free other)) as [Hn|Hn];
    [|by rewrite !load_tasks_nul].
  destruct (head (select_id_where_name other s)) as [pid|] eqn:Hid.
  - rewrite (load_tasks_found _ _ pid Hn Hhead), (load_tasks_found _ _ pid Hn Hid).
    simpl. unfold select_tasks_where_project_id_order_by_sno.
    by rewrite (Hrows pid).
  - by rewrite (load_tasks_missing _ _ Hn Hhead), (load_tasks_missing _ _ Hn Hid).
Qed.

Lemma filter_other_owner pid pid' (l1 l2 : list task_row) :
  pid' ≠ pid →
  filter (λ t, t_project_id t ≠ Some pid) l1 =
    filter (λ t, t_project_id t ≠ Some pid) l2 →
  filter (λ t, t_project_id t = Some pid') l1 =
    filter (λ t, t_project_id t = Some pid') l2.
Proof.
  intros Hne Heq.
  rewrite <- (list_filter_filter_l (λ t, t_project_id t = Some pid')
                (λ t, t_project_id t ≠ Some pid) l1) by (intros t ->; congruence).
  rewrite <- (list_filter_filter_l (λ t, t_project_id t = Some pid')
                (λ t, t_project_id t ≠ Some pid) l2) by (intros t ->; congruence).
  by rewrite Heq.
Qed.

(** In a consistent store the ids two different names resolve to are
    different. *)
Lemma ids_differ s pid pid' name other :
  db_ok s → other ≠ name →
  head (select_id_where_name name s) = Some pid →
  head (select_id_where_name other s) = Some pid' →
  pid' ≠ pid.
Proof.
  intros Hok Hne Hid Hid' ->. apply Hne.
  apply head_elem_of, select_id_elem in Hid as (p & Hp & <- & Hpid).
  apply head_elem_of, select_id_elem in Hid' as (p' & Hp' & <- & Hpid').
  f_equal. apply (key_inj p_id (projects s)); [|done|done|congruence].
  apply StronglySorted_lt_NoDup, Hok.
Qed.

(** X3: in a consistent store, [load_tasks] of every other project returns
    after a [save_tasks] what it returned before, whether the save was
    accepted or raised, provided the store held no uncommitted work or
    every "S.No." of the frame fits INTEGER.  (A save the server refuses
    drops the work an earlier call left pending, for whatever project.) *)
Theorem save_tasks_keeps_other_frames name other df s :
  db_ok s →
  other ≠ name →
  settled_store s ∨ Forall (λ r, int4 (S_No r)) df →
  (load_tasks other (save_tasks name df s).2).1 = (load_tasks other s).1.
Proof.
  intros Hok Hne Hcase.
  destruct (decide (nul_free name)) as [Hn|Hn];
    [|by rewrite save_tasks_nul].
  destruct (head (select_id_where_name name s)) as [pid|] eqn:Hid;
    [|by rewrite (save_tasks_missing _ _ _ Hn Hid)].
  destruct (save_tasks_same_outside name df s pid Hn Hid) as [Hprojects Htasks];
    [tauto|].
  apply load_tasks_same.
  - unfold select_id_where_name. by rewrite Hprojects.
  - intros pid' Hid'. apply (filter_other_owner pid); [|done].
    by apply (ids_differ s pid pid' name other).
Qed.

Lemma save_tasks_keeps_other_frames_witness :
  (load_tasks "Ops"
     (save_tasks "Audit" [Rec 1 "Archive" "all" "Pending"] ops_store).2).1 =
  (load_tasks "Ops" ops_store).1 ∧
  (load_tasks "Audit"
     (save_tasks "Ops" [Rec 1 with_nul "all" "Pending"] pending_store).2).1 =
  (load_tasks "Audit" pending_store).1.
Proof.
  split.
  - apply save_tasks_keeps_other_frames; [exact ops_store_ok|done|left; reflexivity].
  - apply save_tasks_keeps_other_frames;
      [exact pending_store_ok|done|right; by_compute].
Defined.

Lemma select_id_filter_name name other (l : list project_row) :
  other ≠ name →
  filter (λ p, p_name p = other) (filter (λ p, p_name p ≠ name) l) =
  filter (λ p, p_name p = other) l.
Proof. intros Hne. apply list_filter_filter_l. intros p ->. done. Qed.

(** X4: in a consistent store, [delete_project] with a name without NUL
    returns, and afterwards the list of [get_projects] is the former list
    without the name, in the same order, [load_tasks] of the name returns
    the empty frame, [load_tasks] of every other project returns what it
    returned before, and nothing is left uncommitted. *)
Theorem delete_project_effect name s :
  db_ok s →
  nul_free name →
  ∃ names s',
    get_projects s = (Ok names, s) ∧
    delete_project name s = (Ok tt, s') ∧
    get_projects s' = (Ok (filter (λ n, n ≠ name) names), s') ∧
    load_tasks name s' = (Ok [], s') ∧
    (∀ other, other ≠ name →
       (load_tasks other s').1 = (load_tasks other s).1) ∧
    settled_store s'.
Proof.
  intros Hok Hn. exists (p_name <$> projects s). eexists.
  split; [by apply get_projects_ok|]. split; [by apply delete_project_ok|].
  assert (Hok' : db_ok (delete_project name s).2)
    by by apply keeps_ok_respects_delete.
  rewrite delete_project_ok in Hok' by done. simpl in Hok'. split_and!.
  - rewrite get_projects_ok by done. simpl. by rewrite fmap_filter_name.
  - apply load_tasks_missing; [done|]. rewrite select_id_absent; [done|]. simpl.
    rewrite fmap_filter_name. intros Hin.
    by apply list_elem_of_filter in Hin as [? _].
  - intros other Hne. apply load_tasks_same.
    + unfold select_id_where_name. simpl. by rewrite select_id_filter_name.
    + intros pid' Hid'. simpl. apply list_filter_filter_l.
      intros t Ht Hrefers. unfold refers_to in Hrefers. rewrite Ht in Hrefers.
      destruct (select_id_where_name name s) as [|pid l] eqn:Hsel;
        [by apply elem_of_nil in Hrefers|].
      assert (Hrow : ∃ p, p ∈ projects s ∧ p_name p = name ∧ p_id p = pid')
        by (apply select_id_elem; by rewrite Hsel).
      destruct Hrow as (p & Hp & Hname & Hpid).
      apply head_elem_of, select_id_elem in Hid' as (p' & Hp' & Hname' & Hpid').
      apply Hne. rewrite <- Hname, <- Hname'. f_equal.
      apply (key_inj p_id (projects s)); [|done|done|congruence].
      apply StronglySorted_lt_NoDup, Hok.
  - reflexivity.
Qed.

Lemma delete_project_effect_witness :
  ∃ names s',
    get_projects pending_store = (Ok names, pending_store) ∧
    delete_project "Audit" pending_store = (Ok tt, s') ∧
    get_projects s' = (Ok (filter (λ n, n ≠ "Audit") names), s') ∧
    load_tasks "Audit" s' = (Ok [], s') ∧
    (∀ other, other ≠ "Audit" →
       (load_tasks other s').1 = (load_tasks other pending_store).1) ∧
    settled_store s'.
Proof. exact (delete_project_effect "Audit" pending_store pending_store_ok I). Defined.

Lemma select_id_new name s nm :
  str nm = name →
  name ∉ p_name <$> projects s →
  head (p_id <$> filter (λ p, p_name p = name)
                   (projects s ++ [ProjectRow (projects_id_seq s) nm])%list) =
    Some (projects_id_seq s).
Proof.
  intros Hnm Hfresh. rewrite filter_app.
  rewrite (filter_none _ (projects s)); last first.
  { apply Forall_forall. intros p Hp Hname. apply Hfresh.
    rewrite <- Hname. by apply list_elem_of_fmap_2. }
  simpl. by rewrite filter_cons_True.
Qed.

Lemma no_rows_of_next_id s :
  db_ok s → Forall (λ t, t_project_id t ≠ Some (projects_id_seq s)) (tasks s).
Proof.
  intros Hok. eapply Forall_impl; [exact (ok_owner _ _ (ok_tasks _ Hok))|]. simpl.
  intros t (pid & -> & Hin) [= ->].
  apply list_elem_of_fmap in Hin as (p & Heq & Hp).
  pose proof (ok_projects_seq _ Hok) as Hseq.
  rewrite Forall_forall in Hseq. specialize (Hseq _ Hp). lia.
Qed.

(** A project created under a free name has no task rows. *)
Lemma load_tasks_created name s :
  db_ok s → nul_free name → name ∉ p_name <$> projects s →
  load_tasks name (create_project name s).2 = (Ok [], (create_project name s).2).
Proof.
  intros Hok Hn Hfresh. rewrite create_project_fresh by done.
  apply (load_tasks_no_rows _ _ (projects_id_seq s)); [done| |].
  - unfold select_id_where_name. cbn [snd commit projects].
    apply select_id_new; [by apply str_text_of|done].
  - cbn [snd commit tasks]. by apply no_rows_of_next_id.
Qed.

(** X5: in a consistent store, a project created under a name without NUL
    that is not in use starts with no tasks, also when a project of that
    name with tasks existed and was deleted before (ids are not handed out
    twice); the frames of all other projects are as before. *)
Theorem create_project_starts_empty name s :
  db_ok s →
  nul_free name →
  name ∉ p_name <$> projects s →
  ∃ s',
    create_project name s = (Ok tt, s') ∧
    load_tasks name s' = (Ok [], s') ∧
    ∀ other, other ≠ name →
      (load_tasks other s').1 = (load_tasks other s).1.
Proof.
  intros Hok Hn Hfresh. eexists. split; [by apply create_project_fresh|].
  split.
  - pose proof (load_tasks_created name s Hok Hn Hfresh) as Hload.
    by rewrite create_project_fresh in Hload.
  - intros other Hne. apply load_tasks_same; [|done].
    unfold select_id_where_name. simpl. rewrite filter_app.
    rewrite (filter_cons_False _ (ProjectRow _ _)); last first.
    { unfold p_name. simpl. rewrite str_text_of by done. congruence. }
    by rewrite filter_nil, app_nil_r.
Qed.

Lemma create_project_starts_empty_witness :
  ∃ s',
    create_project "Audit" (run [DeleteProject "Audit"] ops_store) = (Ok tt, s') ∧
    load_tasks "Audit" s' = (Ok [], s') ∧
    ∀ other, other ≠ "Audit" →
      (load_tasks other s').1 =
      (load_tasks other (run [DeleteProject "Audit"] ops_store)).1.
Proof.
  apply create_project_starts_empty.
  - apply run_ok, ops_store_ok.
  - exact I.
  - by_compute.
Defined.

(** ** The task toolbar *)

Lemma foldr_max_bounds (z : Z) (l : list Z) :
  z ≤ foldr Z.max z l ∧ Forall (λ x, x ≤ foldr Z.max z l) l ∧
  (foldr Z.max z l = z ∨ foldr Z.max z l ∈ l).
Proof.
  induction l as [|y l (IH1 & IH2 & IH3)]; simpl.
  - split_and!; [lia|constructor|by left].
  - split_and!; [lia| |].
    + constructor; [lia|]. eapply Forall_impl; [exact IH2|]. simpl. intros; lia.
    + destruct (Z.max_spec y (foldr Z.max z l)) as [[_ ->]|[_ ->]].
      * destruct IH3 as [->|Hin]; [by left|right; by right].
      * right. left.
Qed.

Lemma next_sno_above df : Forall (λ x, S_No x < next_sno df) df.
Proof.
  destruct df as [|r rest]; [constructor|]. simpl.
  destruct (foldr_max_bounds (S_No r) (S_No <$> rest)) as (H1 & H2 & _).
  constructor; [lia|]. rewrite Forall_fmap in H2.
  eapply Forall_impl; [exact H2|]. simpl. intros; lia.
Qed.

(** [next_sno] is 1 on the empty frame and one more than a number of the
    frame otherwise. *)
Lemma next_sno_fits df :
  Forall (λ r, S_No r < int64_max) df → next_sno df ≤ int64_max.
Proof.
  destruct df as [|r rest]; [unfold int64_max; simpl; lia|]. simpl.
  intros Hdf. apply Forall_cons in Hdf as [Hr Hrest].
  destruct (foldr_max_bounds (S_No r) (S_No <$> rest)) as (_ & _ & [->|Hin]);
    [lia|].
  apply list_elem_of_fmap in Hin as (q & -> & Hq).
  rewrite Forall_forall in Hrest. specialize (Hrest _ Hq). lia.
Qed.

(** X6: on a frame whose "S.No." values all lie below the largest int64,
    "Add Task" appends one row and leaves the rows already there untouched;
    the new row carries an "S.No." larger than every one in the frame (1 on
    the empty frame), so distinct numbers stay distinct and a strictly
    ascending frame stays strictly ascending.  A frame that holds the
    largest int64 is beyond what is described here. *)
Theorem add_task_keeps_order df :
  Forall (λ r, S_No r < int64_max) df →
  ∃ out,
    add_task df = Some out ∧
    out = (df ++ [Rec (next_sno df) EmptyString EmptyString "Pending"])%list ∧
    Forall (λ x, S_No x < next_sno df) df ∧
    next_sno df ≤ int64_max ∧
    take (length df) out = df ∧
    (NoDup (S_No <$> df) → NoDup (S_No <$> out)) ∧
    (sno_strict df → sno_strict out).
Proof.
  intros Hdf. pose proof (next_sno_fits df Hdf) as Hfits.
  pose proof (next_sno_above df) as Habove.
  eexists. split; [unfold add_task; by rewrite decide_True|].
  split_and!; [done|done|done|by apply take_app_length| |].
  - intros Hnd. rewrite fmap_app. apply NoDup_app.
    split_and!; [done| |apply NoDup_singleton].
    intros x Hx Hnew. simpl in Hnew. apply list_elem_of_singleton in Hnew as ->.
    apply list_elem_of_fmap in Hx as (r & Heq & Hr).
    rewrite Forall_forall in Habove. specialize (Habove _ Hr). lia.
  - unfold sno_strict. intros Hs. rewrite fmap_app.
    apply StronglySorted_app_2; [|done|repeat constructor].
    intros x1 x2 Hx1 Hx2. simpl in Hx2. apply list_elem_of_singleton in Hx2 as ->.
    apply list_elem_of_fmap in Hx1 as (r & -> & Hr).
    rewrite Forall_forall in Habove. by apply Habove.
Qed.

Lemma add_task_keeps_order_witness :
  (∃ out,
     add_task [Rec 2 "Patch CVE" "urgent" "Partial";
               Rec 7 "Review logs" "weekly" "Pending"] = Some out ∧
     out = [Rec 2 "Patch CVE" "urgent" "Partial";
            Rec 7 "Review logs" "weekly" "Pending";
            Rec 8 EmptyString EmptyString "Pending"] ∧
     sno_strict out) ∧
  add_task [] = Some [Rec 1 EmptyString EmptyString "Pending"] ∧
  add_task [Rec 9223372036854775807 "Last" EmptyString "Pending"] = None.
Proof.
  split_and!; [|reflexivity|reflexivity].
  destruct (add_task_keeps_order [Rec 2 "Patch CVE" "urgent" "Partial";
                                  Rec 7 "Review logs" "weekly" "Pending"])
    as (out & Hout & Heq & _ & _ & _ & _ & Hstrict); [by_compute|].
  exists out. split_and!; [exact Hout|exact Heq|].
  apply Hstrict. unfold sno_strict. by_compute.
Defined.

Lemma renumber_from (a : nat) (df : list record) :
  length (zip_with (λ i r, Rec (Z.of_nat i) (Task r) (Comments r) (Status r))
            (seq a (length df)) df) = length df ∧
  S_No <$> zip_with (λ i r, Rec (Z.of_nat i) (Task r) (Comments r) (Status r))
             (seq a (length df)) df = Z.of_nat <$> seq a (length df) ∧
  content <$> zip_with (λ i r, Rec (Z.of_nat i) (Task r) (Comments r) (Status r))
               (seq a (length df)) df = content <$> df.
Proof.
  revert a. induction df as [|r df IH]; intros a; [done|].
  destruct (IH (S a)) as (Hlen & Hsno & Hcontent).
  cbn [length seq zip_with]. rewrite !fmap_cons.
  split_and!; [by rewrite Hlen|by rewrite Hsno|by rewrite Hcontent].
Qed.

Lemma renumber_length df : length (renumber df) = length df.
Proof. apply (renumber_from 1 df). Qed.

Lemma renumber_sno df : S_No <$> renumber df = Z.of_nat <$> seq 1 (length (renumber df)).
Proof. rewrite renumber_length. apply (renumber_from 1 df). Qed.

Lemma renumber_content df : content <$> renumber df = content <$> df.
Proof. apply (renumber_from 1 df). Qed.

Lemma filter_fst {A B} (P : A → Prop) `{∀ x, Decision (P x)} (l : list (A * B)) :
  (filter (λ ab, P ab.1) l).*1 = filter P (l.*1).
Proof.
  induction l as [|[a b] l IH]; [done|]. csimpl. rewrite !filter_cons. simpl.
  destruct (decide (P a)); csimpl; by rewrite IH.
Qed.

(** The labels that lead to a removal are the distinct entries of
    [to_drop]. *)
Lemma dropped_labels (to_drop : list nat) (n : nat) :
  Forall (λ i, (i < n)%nat) to_drop →
  filter (λ i, i ∈ to_drop) (seq 0 n) ≡ₚ remove_dups to_drop.
Proof.
  intros Hvalid. apply NoDup_Permutation.
  - apply NoDup_filter, NoDup_seq.
  - apply NoDup_remove_dups.
  - intros i. rewrite list_elem_of_filter, elem_of_remove_dups, elem_of_seq.
    rewrite Forall_forall in Hvalid. split; [tauto|].
    intros Hi. specialize (Hvalid _ Hi). split; [done|lia].
Qed.

Lemma drop_labels_ok to_drop df :
  Forall (λ i, (i < length df)%nat) to_drop →
  ∃ kept,
    drop to_drop df = Some kept ∧
    kept `sublist_of` df ∧
    (length kept + length (remove_dups to_drop) = length df)%nat ∧
    (∀ i r, df !! i = Some r → i ∉ to_drop → r ∈ kept).
Proof.
  intros Hvalid. unfold drop. rewrite decide_True by done.
  eexists. split; [reflexivity|].
  assert (Hlen : length (seq 0 (length df)) = length df) by apply length_seq.
  split_and!.
  - assert (Hsub : (filter (λ ir : nat * record, ir.1 ∉ to_drop)
                      (zip (seq 0 (length df)) df)).*2
                   `sublist_of` (zip (seq 0 (length df)) df).*2)
      by apply fmap_sublist, sublist_filter.
    by rewrite snd_zip in Hsub by lia.
  - rewrite length_fmap.
    pose proof (filter_fst (λ i, i ∉ to_drop) (zip (seq 0 (length df)) df)) as Hfst.
    rewrite fst_zip in Hfst by lia.
    apply (f_equal length) in Hfst. rewrite length_fmap in Hfst. simpl in Hfst.
    rewrite Hfst.
    pose proof (Permutation_length (dropped_labels to_drop (length df) Hvalid)) as Hd.
    pose proof (Permutation_length
                  (filter_app_complement (λ i, i ∈ to_drop) (seq 0 (length df)))) as Hc.
    rewrite length_app, Hlen in Hc. lia.
  - intros i r Hr Hi. apply (list_elem_of_fmap_2' _ _ (i, r)); [|done].
    apply list_elem_of_filter. split; [done|].
    apply elem_of_lookup_zip_with. exists i, i, r. split_and!; [done| |done].
    apply lookup_seq. split; [done|]. by apply lookup_lt_Some in Hr.
Qed.

Lemma drop_labels_unknown to_drop df :
  ¬ Forall (λ i, (i < length df)%nat) to_drop → drop to_drop df = None.
Proof. intros Hbad. unfold drop. by rewrite decide_False. Qed.

(** X7: "Delete Selected" with at least one label selected raises KeyError
    exactly when a label is no row label of the frame.  Otherwise the new
    frame holds the rows whose label was not selected, in their order and
    with their texts, one row less per distinct label, and its "S.No."
    column reads 1, 2, ..., N. *)
Theorem delete_selected_renumbers to_drop df :
  to_drop ≠ [] →
  (¬ Forall (λ i, (i < length df)%nat) to_drop →
   delete_selected to_drop df = None) ∧
  (Forall (λ i, (i < length df)%nat) to_drop →
   ∃ out,
     delete_selected to_drop df = Some out ∧
     S_No <$> out = Z.of_nat <$> seq 1 (length out) ∧
     content <$> out `sublist_of` content <$> df ∧
     (length out + length (remove_dups to_drop) = length df)%nat ∧
     (∀ i r, df !! i = Some r → i ∉ to_drop → content r ∈ content <$> out)).
Proof.
  intros Hsel. destruct to_drop as [|i0 rest]; [done|]. split.
  - intros Hbad. simpl. by rewrite drop_labels_unknown.
  - intros Hvalid.
    destruct (drop_labels_ok _ _ Hvalid) as (kept & Hdrop & Hsub & Hlen & Hkept).
    exists (renumber kept). simpl. rewrite Hdrop. simpl.
    split_and!; [done|apply renumber_sno| | |].
    + rewrite renumber_content. by apply fmap_sublist.
    + by rewrite renumber_length.
    + intros i r Hr Hi. rewrite renumber_content.
      apply list_elem_of_fmap_2. by apply (Hkept i).
Qed.

Lemma delete_selected_renumbers_witness :
  (∃ out,
     delete_selected [2%nat; 0%nat; 2%nat]
       [Rec 4 "Patch CVE" "urgent" "Partial"; Rec 9 "Review logs" "weekly" "Pending";
        Rec 11 "Rotate keys" "monthly" "Resolved"] = Some out ∧
     S_No <$> out = Z.of_nat <$> seq 1 (length out) ∧
     (length out + 2 = 3)%nat) ∧
  delete_selected [3%nat]
    [Rec 4 "Patch CVE" "urgent" "Partial"; Rec 9 "Review logs" "weekly" "Pending";
     Rec 11 "Rotate keys" "monthly" "Resolved"] = None.
Proof.
  split.
  - destruct (delete_selected_renumbers [2%nat; 0%nat; 2%nat]
                [Rec 4 "Patch CVE" "urgent" "Partial";
                 Rec 9 "Review logs" "weekly" "Pending";
                 Rec 11 "Rotate keys" "monthly" "Resolved"]) as [_ Hvalid]; [done|].
    destruct Hvalid as (out & Hout & Hsno & _ & Hlen & _); [by_compute|].
    exists out. split_and!; [exact Hout|exact Hsno|exact Hlen].
  - apply (delete_selected_renumbers [3%nat]); [done|]. by_compute.
Defined.

Lemma selected_rows_valid checked df previous :
  df ≠ [] →
  Forall (λ i, (i < length df)%nat) (selected_rows checked df previous) ∧
  NoDup (selected_rows checked df previous).
Proof.
  intros Hne. unfold selected_rows. destruct df as [|r df]; [done|].
  cbn [empty]. split.
  - apply Forall_forall. intros i Hi.
    apply list_elem_of_filter in Hi as [_ Hi]. apply elem_of_seq in Hi. lia.
  - apply NoDup_filter, NoDup_seq.
Qed.

(** X8: on a non-empty frame the labels collected from the check boxes are
    row labels of the frame, each once; so "Delete Selected" on a frame of
    the same length does not raise KeyError and removes one row per ticked
    box; the boxes are laid out in 1 to 10 columns, and every row is sent
    to one of them.  On an empty frame nothing is collected and the
    selection of an earlier run stays where it was: if it is not empty,
    "Delete Selected" raises KeyError. *)
Theorem selected_rows_can_be_dropped checked df df' previous :
  length df' = length df →
  (df ≠ [] →
   (∃ out,
      delete_selected (selected_rows checked df previous) df' = Some out ∧
      (length out + length (selected_rows checked df previous) = length df')%nat) ∧
   (1 ≤ num_cols df ≤ 10)%nat ∧ ∀ i, (column_of df i < num_cols df)%nat) ∧
  (df = [] →
   selected_rows checked df previous = previous ∧
   (previous ≠ [] →
    delete_selected (selected_rows checked df previous) df' = None)).
Proof.
  intros Hlen. split.
  - intros Hne. split.
    + destruct (selected_rows_valid checked df previous Hne) as [Hvalid Hnd].
      rewrite <- Hlen in Hvalid.
      destruct (selected_rows checked df previous) as [|i0 rest] eqn:Hsel.
      * exists df'. split; [done|]. simpl. lia.
      * destruct (drop_labels_ok _ _ Hvalid) as (kept & Hdrop & _ & Hcount & _).
        exists (renumber kept). simpl. rewrite Hdrop. split; [done|].
        rewrite renumber_length.
        assert (Hperm : remove_dups (i0 :: rest) ≡ₚ i0 :: rest).
        { apply NoDup_Permutation; [apply NoDup_remove_dups|done|].
          intros i. apply elem_of_remove_dups. }
        rewrite (Permutation_length Hperm) in Hcount. exact Hcount.
    + unfold column_of, num_cols.
      assert (0 < length df)%nat by (destruct df; [done|simpl; lia]).
      split; [lia|]. intros i. apply Nat.mod_upper_bound. lia.
  - intros ->. split; [done|]. intros Hprev.
    destruct df' as [|r df']; [|done]. unfold selected_rows. cbn [empty].
    destruct previous as [|i0 rest]; [done|]. cbn [delete_selected].
    rewrite drop_labels_unknown; [done|].
    intros Hall. apply Forall_cons in Hall as [Hi _]. simpl in Hi. lia.
Qed.

Lemma selected_rows_can_be_dropped_witness :
  (∃ out,
     delete_selected
       (selected_rows (λ i, bool_decide (i = 1%nat))
          [Rec 1 "Patch CVE" "urgent" "Partial"; Rec 2 "Review logs" "weekly" "Pending"]
          [5%nat])
       [Rec 1 "Patch CVE" "soon" "Partial"; Rec 2 "Review logs" "weekly" "Resolved"] =
       Some out ∧
     (length out + 1 = 2)%nat) ∧
  delete_selected (selected_rows (λ i, bool_decide (i = 1%nat)) [] [5%nat]) [] = None.
Proof.
  split.
  - refine (proj1 (proj1 (selected_rows_can_be_dropped (λ i, bool_decide (i = 1%nat))
      [Rec 1 "Patch CVE" "urgent" "Partial"; Rec 2 "Review logs" "weekly" "Pending"]
      [Rec 1 "Patch CVE" "soon" "Partial"; Rec 2 "Review logs" "weekly" "Resolved"]
      [5%nat] eq_refl) _)). done.
  - refine (proj2 (proj2 (selected_rows_can_be_dropped (λ i, bool_decide (i = 1%nat))
      [] [] [5%nat] eq_refl) eq_refl) _). done.
Defined.

Lemma seq_strict (a n : nat) : StronglySorted Z.lt (Z.of_nat <$> seq a n).
Proof.
  revert a. induction n as [|n IH]; intros a; csimpl; constructor; [apply IH|].
  apply Forall_fmap, Forall_forall. intros i Hi. apply elem_of_seq in Hi.
  simpl. lia.
Qed.

(** Whether the strings of a record can be sent depends on its content
    only. *)
Lemma texts_nul_free_content (l1 l2 : list record) :
  content <$> l1 `sublist_of` content <$> l2 →
  Forall texts_nul_free l2 → Forall texts_nul_free l1.
Proof.
  intros Hsub Hl2.
  assert (Hc : ∀ l, Forall texts_nul_free l ↔
                    Forall (λ c, nul_free c.1.1 ∧ nul_free c.1.2 ∧ nul_free c.2)
                           (content <$> l)).
  { intros l. by rewrite Forall_fmap. }
  apply Hc. apply Forall_forall. intros c Hin.
  apply sublist_subseteq in Hsub. apply Hsub in Hin.
  apply Hc in Hl2. rewrite Forall_forall in Hl2. by apply Hl2.
Qed.

(** X9: in a consistent store, the frame "Delete Selected" makes of a
    frame whose strings hold no NUL is, with at most 2147483647 rows,
    accepted by [save_tasks] and comes back from [load_tasks] exactly as
    it is. *)
Theorem delete_selected_then_save name to_drop df out s :
  db_ok s →
  name ∈ p_name <$> projects s →
  to_drop ≠ [] →
  Forall texts_nul_free df →
  delete_selected to_drop df = Some out →
  Z.of_nat (length out) ≤ 2147483647 →
  ∃ s1, save_tasks name out s = (Ok tt, s1) ∧
        load_tasks name s1 = (Ok out, s1).
Proof.
  intros Hok Hin Hsel Htexts Hdel Hsize.
  destruct to_drop as [|i0 rest]; [done|]. simpl in Hdel.
  destruct (decide (Forall (λ i, (i < length df)%nat) (i0 :: rest))) as [Hvalid|Hbad];
    [|by rewrite drop_labels_unknown in Hdel].
  destruct (drop_labels_ok _ _ Hvalid) as (kept & Hdrop & Hsub & _ & _).
  rewrite Hdrop in Hdel. injection Hdel as <-.
  assert (Hsno : S_No <$> renumber kept = Z.of_nat <$> seq 1 (length (renumber kept)))
    by apply renumber_sno.
  assert (Hstrict : sno_strict (renumber kept)).
  { unfold sno_strict. rewrite Hsno. apply seq_strict. }
  assert (Hrange : Forall (λ r, int4 (S_No r)) (renumber kept)).
  { apply Forall_forall. intros r Hr.
    assert (Hcol : S_No r ∈ S_No <$> renumber kept) by by apply list_elem_of_fmap_2.
    rewrite Hsno in Hcol. apply list_elem_of_fmap in Hcol as (i & -> & Hi).
    apply elem_of_seq in Hi. unfold int4. lia. }
  assert (Hout : Forall texts_nul_free (renumber kept)).
  { apply (texts_nul_free_content _ df); [|done].
    rewrite renumber_content. by apply fmap_sublist. }
  apply save_load_strict; [done|done| |done].
  apply Forall_forall. intros r Hr. rewrite Forall_forall in Hrange, Hout.
  split; auto.
Qed.

Lemma delete_selected_then_save_witness :
  ∃ s1, save_tasks "Audit" [Rec 1 "Review logs" "weekly" "Pending"] ops_store =
          (Ok tt, s1) ∧
        load_tasks "Audit" s1 = (Ok [Rec 1 "Review logs" "weekly" "Pending"], s1).
Proof.
  apply (delete_selected_then_save "Audit" [0%nat]
           [Rec 4 "Patch CVE" "urgent" "Partial"; Rec 9 "Review logs" "weekly" "Pending"]).
  - exact ops_store_ok.
  - by_compute.
  - done.
  - by_compute.
  - reflexivity.
  - simpl. lia.
Defined.

(** ** The cells of the rendered table *)

Lemma append_cons x (a b : string) : String x a +:+ b = String x (a +:+ b).
Proof. reflexivity. Qed.

Lemma append_assoc (a b c : string) : (a +:+ b) +:+ c = a +:+ (b +:+ c).
Proof. induction a as [|x a IH]; [done|]. by rewrite !append_cons, IH. Qed.

Lemma replace_each old new s :
  replace old new s =
  each_char (λ c, if decide (c = old) then new else String c EmptyString) s.
Proof.
  induction s as [|c s IH]; [done|].
  cbn [replace each_char]. rewrite IH. by case_decide.
Qed.

Lemma each_char_append f a b :
  each_char f (a +:+ b) = each_char f a +:+ each_char f b.
Proof.
  induction a as [|x a IH]; [done|].
  rewrite append_cons. cbn [each_char]. by rewrite IH, append_assoc.
Qed.

Lemma each_char_each f g s :
  each_char g (each_char f s) = each_char (λ c, each_char g (f c)) s.
Proof.
  induction s as [|c s IH]; [done|].
  cbn [each_char]. by rewrite each_char_append, IH.
Qed.

Lemma each_char_ext f g s : (∀ c, f c = g c) → each_char f s = each_char g s.
Proof.
  intros Hfg. induction s as [|c s IH]; [done|].
  cbn [each_char]. by rewrite Hfg, IH.
Qed.

Lemma count_char_append c a b :
  count_char c (a +:+ b) = (count_char c a + count_char c b)%nat.
Proof.
  induction a as [|x a IH]; [done|].
  rewrite append_cons. cbn [count_char]. rewrite IH. lia.
Qed.

Lemma count_char_each c f s :
  (∀ d, count_char c (f d) = 0%nat) → count_char c (each_char f s) = 0%nat.
Proof.
  intros Hf. induction s as [|d s IH]; [done|].
  cbn [each_char]. by rewrite count_char_append, Hf, IH.
Qed.

Lemma task_text_each row : task_text row = each_char task_char (Task row).
Proof.
  unfold task_text. rewrite !replace_each, each_char_each.
  apply each_char_ext. intros c. unfold task_char.
  destruct (decide (c = "<"%char)) as [->|?]; [reflexivity|].
  destruct (decide (c = ">"%char)) as [->|?]; [reflexivity|].
  repeat first [rewrite decide_False by done
               |progress cbv [each_char String.append]].
  reflexivity.
Qed.

(** X10: the text [build_table] puts into the "Task" cell holds neither
    [<] nor [>]: the two chained [replace] calls do not disturb each other,
    each [<] of the task has become [&lt;], each [>] has become [&gt;] and
    every other character stands as it was. *)
Theorem task_text_has_no_angle_bracket row :
  count_char "<"%char (task_text row) = 0%nat ∧
  count_char ">"%char (task_text row) = 0%nat ∧
  task_text row = each_char task_char (Task row).
Proof.
  rewrite task_text_each. split_and!; [| |done].
  - apply count_char_each. intros d. unfold task_char.
    repeat case_decide; simpl; try done. by rewrite decide_False.
  - apply count_char_each. intros d. unfold task_char.
    repeat case_decide; simpl; try done. by rewrite decide_False.
Qed.

Lemma comment_text_each row :
  comment_text row = each_char comment_char (Comments row).
Proof.
  unfold comment_text. rewrite !replace_each, !each_char_each.
  apply each_char_ext. intros c. unfold comment_char.
  destruct (decide (c = "<"%char)) as [->|?]; [reflexivity|].
  destruct (decide (c = ">"%char)) as [->|?]; [reflexivity|].
  destruct (decide (c = LF)) as [->|?]; [reflexivity|].
  repeat first [rewrite decide_False by done
               |progress cbv [each_char String.append]].
  reflexivity.
Qed.

Lemma count_comment_char c d s :
  count_char c (comment_char d) = (if decide (d = LF) then 1 else 0)%nat →
  count_char c (each_char comment_char s) = count_char LF s →
  count_char c (each_char comment_char (String d s)) = count_char LF (String d s).
Proof.
  intros Hd Hs. cbn [each_char count_char].
  by rewrite count_char_append, Hd, Hs.
Qed.

(** X11: in the text [build_table] puts into the "Comments" cell the three
    chained [replace] calls do not disturb each other: each [<], [>] and
    newline of the comment has become [&lt;], [&gt;] and [<br>], every other
    character stands as it was.  So no newline is left, and the cell holds as
    many [<] and as many [>] as the comment had newlines, those of the
    [<br>] tags. *)
Theorem comment_text_only_breaks row :
  comment_text row = each_char comment_char (Comments row) ∧
  count_char LF (comment_text row) = 0%nat ∧
  count_char "<"%char (comment_text row) = count_char LF (Comments row) ∧
  count_char ">"%char (comment_text row) = count_char LF (Comments row).
Proof.
  rewrite comment_text_each. split_and!; [done| | |].
  - apply count_char_each. intros d. unfold comment_char, LF.
    repeat case_decide; simpl; try done. by rewrite decide_False.
  - induction (Comments row) as [|d s IH]; [done|].
    apply count_comment_char; [|done]. unfold comment_char, LF.
    repeat case_decide; subst; simpl; try done. by rewrite decide_False.
  - induction (Comments row) as [|d s IH]; [done|].
    apply count_comment_char; [|done]. unfold comment_char, LF.
    repeat case_decide; subst; simpl; try done. by rewrite decide_False.
Qed.

Example table_cells :
  task_text (Rec 1 "if a<b then <b>stop</b>" "x" "Pending") =
    "if a&lt;b then &lt;b&gt;stop&lt;/b&gt;" ∧
  comment_text (Rec 1 "t" (String "a" (String LF "<i>")) "Pending") = "a<br>&lt;i&gt;".
Proof. split; reflexivity. Qed.

(** ** The metrics *)

(** X12: the three status metrics never add up to more than "Total
    Tasks", and they add up to it exactly when every row carries one of the
    three options of the "Status" column. *)
Theorem metrics_add_up df :
  (metric "Pending" df + metric "Resolved" df + metric "Partial" df ≤ length df)%nat ∧
  ((metric "Pending" df + metric "Resolved" df + metric "Partial" df = length df)%nat ↔
   Forall (λ r, Status r ∈ status_options) df).
Proof.
  unfold metric, status_options. induction df as [|r df [IHle IHeq]].
  - split; [done|]. split; [constructor|done].
  - rewrite !filter_cons, Forall_cons.
    destruct (decide (Status r = "Pending")) as [Hp|Hp];
      destruct (decide (Status r = "Resolved")) as [Hr|Hr];
      destruct (decide (Status r = "Partial")) as [Hq|Hq];
      try congruence; simpl; (split; [lia|]).
    + rewrite <- IHeq, Hp.
      split; [intros; split; [rewrite !elem_of_cons; tauto|lia]|intros [_ ?]; lia].
    + rewrite <- IHeq, Hr.
      split; [intros; split; [rewrite !elem_of_cons; tauto|lia]|intros [_ ?]; lia].
    + rewrite <- IHeq, Hq.
      split; [intros; split; [rewrite !elem_of_cons; tauto|lia]|intros [_ ?]; lia].
    + split; [lia|]. intros [Hin _].
      rewrite !elem_of_cons, elem_of_nil in Hin. tauto.
Qed.

Lemma metrics_add_up_witness :
  (metric "Pending" [Rec 1 "a" "b" "Pending"; Rec 2 "c" "d" "Partial";
                     Rec 3 "e" "f" "Pending"] +
   metric "Resolved" [Rec 1 "a" "b" "Pending"; Rec 2 "c" "d" "Partial";
                      Rec 3 "e" "f" "Pending"] +
   metric "Partial" [Rec 1 "a" "b" "Pending"; Rec 2 "c" "d" "Partial";
                     Rec 3 "e" "f" "Pending"] = 3)%nat.
Proof.
  apply (metrics_add_up [Rec 1 "a" "b" "Pending"; Rec 2 "c" "d" "Partial";
                         Rec 3 "e" "f" "Pending"]).
  unfold status_options. by_compute.
Defined.

(** ** The side bar *)

(** X13: in a consistent store the "Create" button lets one exception
    out and no other: [ValueError], for a name that is not listed and,
    stripped, still holds NUL; the store is then as it was.  An empty name
    and a name already listed are answered by a warning and leave the store
    as it is; any other name is created, and is then the last of the list.
    No project with an empty name comes into being this way. *)
Theorem add_project_outcome strip new_name s :
  db_ok s →
  ∃ out s',
    add_project strip new_name s = (out, s') ∧
    db_ok s' ∧
    match out with
    | Ok EnterAName => strip new_name = EmptyString ∧ s' = s
    | Ok AlreadyExists => strip new_name ∈ p_name <$> projects s ∧ s' = s
    | Ok (Created name) =>
        name = strip new_name ∧ name ≠ EmptyString ∧ nul_free name ∧
        (name ∉ p_name <$> projects s) ∧
        get_projects s' = (Ok ((p_name <$> projects s) ++ [name])%list, s') ∧
        tasks s' = tasks s
    | Raise e =>
        e = ValueError ∧ ¬ nul_free (strip new_name) ∧
        (strip new_name ∉ p_name <$> projects s) ∧ s' = s
    end.
Proof.
  intros Hok. unfold add_project, mbind, M_bind. unfold bind at 1.
  rewrite get_projects_ok by done.
  destruct (decide (strip new_name = EmptyString)) as [Hempty|Hname].
  { by exists (Ok EnterAName), s. }
  destruct (decide (strip new_name ∈ p_name <$> projects s)) as [Hin|Hfresh].
  { by exists (Ok AlreadyExists), s. }
  unfold bind.
  destruct (decide (nul_free (strip new_name))) as [Hn|Hn].
  - rewrite create_project_fresh by done.
    assert (Hok' : db_ok (create_project (strip new_name) s).2)
      by by apply keeps_ok_respects_create.
    rewrite create_project_fresh in Hok' by done. cbn [snd] in Hok'.
    eexists (Ok (Created _)), _. split; [reflexivity|]. split; [exact Hok'|].
    split_and!; try done.
    rewrite get_projects_ok by done. cbn [commit projects]. rewrite fmap_app.
    cbn [fmap list_fmap]. unfold p_name at 2. cbn [p_text].
    by rewrite str_text_of.
  - rewrite create_project_nul by done.
    by exists (Raise ValueError), s.
Qed.

Lemma add_project_outcome_witness :
  (∃ s', add_project (λ x, x) "Payroll" ops_store = (Ok (Created "Payroll"), s') ∧
         db_ok s') ∧
  add_project (λ x, x) with_nul ops_store = (Raise ValueError, ops_store).
Proof.
  split.
  - destruct (add_project_outcome (λ x, x) "Payroll" ops_store ops_store_ok)
      as (out & s' & Hadd & Hok' & Hout).
    exists s'. split; [|exact Hok'].
    rewrite Hadd. vm_compute in Hadd. by injection Hadd as <- _.
  - destruct (add_project_outcome (λ x, x) with_nul ops_store ops_store_ok)
      as (out & s' & Hadd & _ & Hout).
    rewrite Hadd. vm_compute in Hadd. by injection Hadd as <- <-.
Defined.

(** ** The connection *)

Lemma session_draw s0 s :
  committed_tasks s = tasks s0 →
  session (Connection (projects s) (tasks s) false) (draw s0 s) = s.
Proof. intros H. destruct s. unfold session, draw. simpl in *. by rewrite H. Qed.

Lemma draw_session c s : draw s (session c s) = s.
Proof. by destruct s. Qed.

Lemma draw_draw s0 s1 s2 : draw (draw s0 s1) s2 = draw s0 s2.
Proof. done. Qed.

Ltac statement_case :=
  split; [done|intros e He Hc; simpl in *; simplify_eq; done].

Lemma statement_query {A} (q : db → A) : statement (query q).
Proof. intros s. statement_case. Qed.

Lemma statement_select name :
  statement (param name;; query (λ s, fetchone (select_id_where_name name s))).
Proof.
  intros s. unfold mbind, M_bind, bind, param.
  destruct (to_text name); statement_case.
Qed.

Lemma statement_insert_project name : statement (insert_project name).
Proof.
  intros s. unfold insert_project, mbind, M_bind, bind, param.
  destruct (to_text name); [|statement_case].
  repeat case_decide; statement_case.
Qed.

Lemma statement_delete_projects name : statement (delete_projects_where_name name).
Proof.
  intros s. unfold delete_projects_where_name, mbind, M_bind, bind, param.
  destruct (to_text name); statement_case.
Qed.

Lemma statement_delete_tasks pid : statement (delete_tasks_where_project_id pid).
Proof. intros s. statement_case. Qed.

Lemma statement_insert_task row : statement (insert_task row).
Proof.
  intros s. destruct row as [[[[pid sno] task] comments] status].
  unfold insert_task, mbind, M_bind, bind, param.
  destruct (to_text task); [|statement_case].
  destruct (to_text comments); [|statement_case].
  destruct (to_text status); [|statement_case].
  repeat case_decide; statement_case.
Qed.

Lemma follows_execute {A} (stmt : M A) :
  statement stmt → follows (Conn.execute stmt) stmt.
Proof.
  intros Hst p c Hc Hlive. unfold Conn.execute. rewrite Hc. simpl. rewrite Hlive.
  destruct (Hst (session c (server p))) as [Hcm Hgave].
  destruct (stmt (session c (server p))) as [[a|e] s']; simpl in *; [done|].
  split; [done|]. destruct (client_side e) eqn:He; simpl.
  - rewrite (Hgave e eq_refl) by (by rewrite He). simpl.
    destruct c as [ps ts failed]. simpl in *. by subst.
  - eexists. split; [reflexivity|done].
Qed.

Lemma follows_ret {A} (a : A) : follows (mret a) (ret a).
Proof.
  intros p c Hc Hlive. unfold ret. simpl. split; [done|].
  destruct p as [srv ch], c as [ps ts failed]. simpl in *. subst.
  unfold mret, P_ret, conn_ret. by rewrite draw_session.
Qed.

Lemma follows_bind {A B} (low : P A) (high : M A) (lowk : A → P B) (highk : A → M B) :
  follows low high → (∀ a, follows (lowk a) (highk a)) →
  follows (low ≫= lowk) (high ≫= highk).
Proof.
  intros Hm Hk p c Hc Hlive. specialize (Hm p c Hc Hlive).
  unfold mbind at 2. unfold M_bind, bind.
  unfold mbind, P_bind, conn_bind.
  destruct (high (session c (server p))) as [[a|e] s1].
  - destruct Hm as [Hcm ->].
    specialize (Hk a {| server := draw (server p) s1;
                        cache := Some (Connection (projects s1) (tasks s1) false) |}
                     (Connection (projects s1) (tasks s1) false) eq_refl eq_refl).
    cbn [server] in Hk. rewrite session_draw in Hk by done.
    destruct (highk a s1) as [[b|e] s2]; exact Hk.
  - destruct Hm as [Hcm Hm]. split; [done|].
    destruct (client_side e); [by rewrite Hm|].
    destruct Hm as (c' & -> & Hc'). by exists c'.
Qed.

Lemma follows_executemany {A} (stmt : A → M unit) params :
  (∀ x, statement (stmt x)) →
  follows (Conn.executemany stmt params) (executemany stmt params).
Proof.
  intros Hst. induction params as [|x params IH]; simpl.
  - apply follows_ret.
  - apply follows_bind; [by apply follows_execute|done].
Qed.

(** After [db] the process holds a connection whose transaction is intact
    and which sees the store the process stood for. *)
Lemma db_tidy p :
  tidy p →
  ∃ c, Conn.db p = (Returns tt, {| server := server p; cache := Some c |}) ∧
       c_failed c = false ∧
       session c (server p) = store_of p ∧
       c_projects c = projects (server p).
Proof.
  intros [Hsrv Hc]. unfold Conn.db, Conn.get_conn, Conn.execute, store_of in *.
  destruct p as [srv [[ps ts failed]|]]; simpl in *.
  - destruct failed; simpl.
    + eexists. split_and!; [reflexivity|done| |done].
      destruct srv; simpl in *. by subst.
    + exists (Connection ps ts false). split_and!; [|done|done|by apply Hc].
      by rewrite draw_session.
  - exists (connect {| server := srv; cache := None |}).
    split_and!; [|done| |done].
    + by rewrite draw_session.
    + destruct srv; simpl in *. by subst.
Qed.

(** A function that only reads. *)
Lemma refines_read {A} (low : P A) (high : M A) :
  follows low high →
  (∀ s, (high s).2 = s ∧ ∀ e, (high s).1 = Raise e → client_side e) →
  refines (Conn.db;; low) high.
Proof.
  intros Hlow Hread p Hp. unfold mbind, P_bind, conn_bind.
  destruct (db_tidy p Hp) as (c & -> & Hlive & Hsess & Hps).
  specialize (Hlow {| server := server p; cache := Some c |} c eq_refl Hlive).
  cbn [server] in Hlow. rewrite Hsess in Hlow.
  destruct (Hread (store_of p)) as [Hsame Hclient].
  destruct Hp as [Hsrv _].
  destruct (high (store_of p)) as [[a|e] s']; simpl in *; subst s'.
  - destruct Hlow as [Hcm ->]. eexists. split; [reflexivity|].
    split; [by apply session_draw|].
    split; simpl; [done|]. intros _. by rewrite <- Hsess.
  - destruct Hlow as [Hcm Hlow]. pose proof (Hclient e eq_refl) as Hce.
    destruct (client_side e); [|done].
    rewrite Hlow. eexists. split; [reflexivity|].
    split; [by apply session_draw|].
    split; simpl; [done|]. intros _. by rewrite <- Hsess.
Qed.

(** A function that writes and commits at its end. *)
Lemma refines_commit (low : P unit) (high : M unit) :
  follows low high →
  (∀ s, projects (high s).2 = projects s ∨ ∃ a, (high s).1 = Ok a) →
  refines (Conn.db;; low;; Conn.commit) (with_commit high).
Proof.
  intros Hlow Hprojects p Hp. unfold mbind, P_bind, conn_bind.
  destruct (db_tidy p Hp) as (c & -> & Hlive & Hsess & Hps).
  specialize (Hlow {| server := server p; cache := Some c |} c eq_refl Hlive).
  cbn [server] in Hlow. rewrite Hsess in Hlow.
  specialize (Hprojects (store_of p)).
  destruct Hp as [Hsrv _]. unfold with_commit.
  destruct (high (store_of p)) as [[[]|e] s']; simpl in *.
  - destruct Hlow as [Hcm ->]. unfold Conn.commit. simpl.
    rewrite session_draw by done.
    eexists. split; [reflexivity|]. split; [by destruct s'|].
    split; simpl; done.
  - destruct Hlow as [Hcm Hlow]. destruct (client_side e); simpl.
    + rewrite Hlow. eexists. split; [reflexivity|].
      split; [by apply session_draw|].
      split; simpl; [done|]. intros _.
      destruct Hprojects as [->|[a Ha]]; [|done]. by rewrite <- Hsess.
    + destruct Hlow as (c' & -> & Hc'). eexists. split; [reflexivity|].
      split.
      * rewrite <- Hsess. unfold store_of. simpl. rewrite Hc'.
        unfold draw, rollback. simpl. by rewrite Hps, Hsrv.
      * split; simpl; [done|]. by rewrite Hc'.
Qed.

Lemma refines_ret {A} (a : A) : refines (mret a) (ret a).
Proof. intros p Hp. by exists p. Qed.

Lemma refines_bind {A B} (low : P A) (high : M A) (lowk : A → P B) (highk : A → M B) :
  refines low high → (∀ a, refines (lowk a) (highk a)) →
  refines (low ≫= lowk) (high ≫= highk).
Proof.
  intros Hm Hk p Hp. destruct (Hm p Hp) as (p1 & Hlow & Hsrv & Hp1).
  unfold mbind at 2 3. unfold M_bind, bind.
  unfold mbind, P_bind, conn_bind. rewrite Hlow.
  destruct (high (store_of p)) as [[a|e] s1]; simpl in *.
  - destruct (Hk a p1 Hp1) as (p2 & Hlow2 & Hsrv2 & Hp2). subst s1.
    by exists p2.
  - by exists p1.
Qed.

Lemma refines_ext {A} (low low' : P A) (high high' : M A) :
  (∀ p, low p = low' p) → (∀ s, high s = high' s) →
  refines low high → refines low' high'.
Proof.
  intros Hext Hext' Hlow p Hp. destruct (Hlow p Hp) as (p' & Hp' & ?).
  exists p'. by rewrite <- Hext, <- Hext'.
Qed.

Lemma refines_get_project_id name :
  refines (Conn.get_project_id name) (get_project_id name).
Proof.
  apply (refines_ext
           (Conn.db;;
            (row ← Conn.execute
                     (param name;; query (λ s, fetchone (select_id_where_name name s)));
             mret row))
           _
           (row ← (param name;; query (λ s, fetchone (select_id_where_name name s)));
            ret row)).
  - done.
  - intros s. unfold get_project_id, mbind, M_bind, bind, param.
    by destruct (to_text name).
  - apply refines_read.
    + apply follows_bind; [apply follows_execute, statement_select|].
      intros row. apply follows_ret.
    + intros s. unfold mbind, M_bind, bind, param.
      destruct (to_text name); simpl; split; try done. by intros e [= <-].
Qed.

(** The rows [save_tasks] sends do not touch the project table. *)
Lemma save_body_projects pid df s :
  projects (bind (delete_tasks_where_project_id pid)
              (λ _, if empty df then ret tt
                    else executemany insert_task (save_rows pid df)) s).2 =
  projects s.
Proof.
  apply (respects_bind same_projects); unfold same_projects.
  - congruence.
  - by intros s0.
  - intros _. destruct (empty df); [by intros s0|].
    apply respects_executemany; [done|congruence|].
    intros [[[[p sno] task] comments] status] s0.
    unfold insert_task, mbind, M_bind, bind, param.
    destruct (to_text task); [|done]. destruct (to_text comments); [|done].
    destruct (to_text status); [|done]. by repeat case_decide.
Qed.

(** X14: the functions of the layer, run statement by statement on the
    cached connection, do what the one-step functions say.  Whatever state
    the cached connection is in, each of the six returns or raises as its
    one-step counterpart does on the store the process stands for, and
    leaves a process that stands for the store the counterpart leaves:
    what a call the server refused had done is never committed, what a
    call psycopg2 gave up on had done stays in the open transaction, and
    [InFailedSqlTransaction] never reaches the caller. *)
Theorem connection_refines :
  refines Conn.get_projects get_projects ∧
  (∀ name, refines (Conn.get_project_id name) (get_project_id name)) ∧
  (∀ name, refines (Conn.create_project name) (create_project name)) ∧
  (∀ name, refines (Conn.delete_project name) (delete_project name)) ∧
  (∀ name, refines (Conn.load_tasks name) (load_tasks name)) ∧
  (∀ name df, refines (Conn.save_tasks name df) (save_tasks name df)).
Proof.
  split_and!.
  - apply refines_read; [apply follows_execute, statement_query|].
    intros s. by split.
  - apply refines_get_project_id.
  - intros name. apply refines_commit; [apply follows_execute, statement_insert_project|].
    intros s. unfold insert_project, mbind, M_bind, bind, param.
    destruct (to_text name); [|by left].
    repeat case_decide; simpl; eauto.
  - intros name.
    apply refines_commit; [apply follows_execute, statement_delete_projects|].
    intros s. unfold delete_projects_where_name, mbind, M_bind, bind, param.
    destruct (to_text name); simpl; eauto.
  - intros name. apply refines_bind; [apply refines_get_project_id|].
    intros [pid|]; [|apply refines_ret].
    apply (refines_read
             (rows ← Conn.execute (query (select_tasks_where_project_id_order_by_sno pid));
              match rows with
              | [] => mret empty_df
              | _ :: _ => mret (to_frame rows)
              end)).
    + apply follows_bind; [apply follows_execute, statement_query|].
      intros [|r rows]; apply follows_ret.
    + intros s. unfold mbind, M_bind, bind, query.
      by destruct (select_tasks_where_project_id_order_by_sno pid s).
  - intros name df. apply refines_bind; [apply refines_get_project_id|].
    intros [pid|]; [|apply refines_ret].
    apply (refines_ext
             (Conn.db;;
              (Conn.execute (delete_tasks_where_project_id pid);;
               if empty df then mret tt
               else Conn.executemany insert_task (save_rows pid df));;
              Conn.commit)
             _
             (with_commit
                (delete_tasks_where_project_id pid;;
                 if empty df then ret tt
                 else executemany insert_task (save_rows pid df)))).
    + intros p. unfold mbind, P_bind, conn_bind.
      destruct (Conn.db p) as [[[]|e] p1]; [|done].
      by destruct (Conn.execute (delete_tasks_where_project_id pid) p1) as [[[]|e] p2].
    + done.
    + apply refines_commit.
      * apply follows_bind; [apply follows_execute, statement_delete_tasks|].
        intros _. destruct (empty df); [apply follows_ret|].
        apply follows_executemany. intros row. apply statement_insert_task.
      * intros s. left. apply save_body_projects.
Qed.

Lemma connection_refines_witness :
  (∃ p',
     Conn.save_tasks "Audit" [Rec 2147483648 "Overflow" "x" "Pending"]
       {| server := ops_store; cache := Some (Connection [] [] true) |} =
       (Raises (StatementError NumericValueOutOfRange), p') ∧
     store_of p' = ops_store) ∧
  (∃ p',
     Conn.save_tasks "Ops" [Rec 1 with_nul EmptyString "Pending"]
       {| server := ops_store; cache := None |} =
       (Raises (StatementError ValueError), p') ∧
     store_of p' = pending_store ∧
     server p' = ops_store).
Proof.
  destruct connection_refines as (_ & _ & _ & _ & _ & Hsave).
  split.
  - destruct (Hsave "Audit" [Rec 2147483648 "Overflow" "x" "Pending"]
               {| server := ops_store; cache := Some (Connection [] [] true) |})
      as (p' & Hlow & Hstore & _); [split; [reflexivity|done]|].
    exists p'. split; [exact Hlow|]. rewrite Hstore. reflexivity.
  - destruct (Hsave "Ops" [Rec 1 with_nul EmptyString "Pending"]
               {| server := ops_store; cache := None |})
      as (p' & Hlow & Hstore & _); [split; [reflexivity|done]|].
    exists p'. split_and!; [exact Hlow|rewrite Hstore; reflexivity|].
    vm_compute in Hlow. injection Hlow as <-. reflexivity.
Defined.

(** X15: whatever state the cached connection is in (none cached, idle,
    inside a transaction, or failed), [db] returns without raising, leaves
    the committed store alone, and the statement run next on the connection
    it hands out is executed: it does not raise [InFailedSqlTransaction].
    A transaction that had not failed is kept; a failed one is dropped
    with its connection. *)
Theorem db_hands_out_live_connection p :
  ∃ c,
    Conn.db p = (Returns tt, {| server := server p; cache := Some c |}) ∧
    c_failed c = false ∧
    (∀ A (stmt : M A),
       (Conn.execute stmt {| server := server p; cache := Some c |}).1 ≠
       Raises InFailedSqlTransaction) ∧
    match cache p with
    | Some c0 => if c_failed c0 then c = connect p else c = c0
    | None => c = connect p
    end.
Proof.
  assert (Hlive : ∀ c, c_failed c = false → ∀ A (stmt : M A),
            (Conn.execute stmt {| server := server p; cache := Some c |}).1 ≠
            Raises InFailedSqlTransaction).
  { intros c Hc A stmt. unfold Conn.execute. simpl. rewrite Hc.
    by destruct (stmt (session c (server p))) as [[a|e] s']. }
  destruct p as [srv [[ps ts failed]|]]; simpl in *.
  - destruct failed.
    + exists (connect {| server := srv; cache := None |}).
      split_and!; [done|done|by apply Hlive|done].
    + exists (Connection ps ts false).
      split_and!; [|done|by apply Hlive|done].
      unfold Conn.db, Conn.get_conn, Conn.execute. simpl. by destruct srv.
  - exists (connect {| server := srv; cache := None |}).
    split_and!; [|done|by apply Hlive|done].
    unfold Conn.db, Conn.get_conn, Conn.execute. simpl. by destruct srv.
Qed.

(** ** The frame kept in the session *)

Lemma load_tasks_recreated name s :
  db_ok s →
  nul_free name →
  load_tasks name (create_project name (delete_project name s).2).2 =
    (Ok [], (create_project name (delete_project name s).2).2).
Proof.
  intros Hok Hn.
  assert (Hok2 : db_ok (delete_project name s).2)
    by by apply keeps_ok_respects_delete.
  apply load_tasks_created; [done|done|].
  rewrite delete_project_ok by done. simpl. rewrite fmap_filter_name. intros Hin.
  by apply list_elem_of_filter in Hin as [? _].
Qed.

(** X16: the frame the session keeps for a project outlives the project.
    Once the page has loaded the frame of a project, deleting the project
    and creating one of the same name leaves that frame in the session: the
    page goes on showing the old rows, although [load_tasks] returns none
    for the new project; only "Reload" makes the page load again. *)
Theorem session_frame_outlives_project name s session_state df :
  db_ok s →
  session_state !! state_key name = None →
  load_tasks name s = (Ok df, s) →
  ∃ loaded s',
    session_frame name session_state s = (Ok (df, loaded), s) ∧
    s' = (create_project name (delete_project name s).2).2 ∧
    load_tasks name s' = (Ok [], s') ∧
    session_frame name loaded s' = (Ok (df, loaded), s') ∧
    (session_frame name (reload name loaded) s').1 =
      Ok ([], <[state_key name := []]> (reload name loaded)).
Proof.
  intros Hok Hkey Hload.
  assert (Hn : nul_free name).
  { destruct (decide (nul_free name)) as [Hn|Hn]; [done|].
    by rewrite load_tasks_nul in Hload. }
  exists (<[state_key name := df]> session_state). eexists.
  split_and!; [|reflexivity|by apply load_tasks_recreated| |].
  - unfold session_frame. rewrite Hkey.
    unfold mbind, M_bind, bind. by rewrite Hload.
  - unfold session_frame. by rewrite lookup_insert_eq.
  - unfold session_frame, reload. rewrite lookup_delete_eq.
    unfold mbind, M_bind, bind. by rewrite load_tasks_recreated.
Qed.

Lemma session_frame_outlives_project_witness :
  ∃ loaded s',
    session_frame "Audit" ∅ ops_store =
      (Ok ([Rec 1 "Review logs" EmptyString "Pending";
            Rec 2 "Patch CVE" "urgent" "Partial"], loaded), ops_store) ∧
    s' = (create_project "Audit" (delete_project "Audit" ops_store).2).2 ∧
    load_tasks "Audit" s' = (Ok [], s') ∧
    session_frame "Audit" loaded s' =
      (Ok ([Rec 1 "Review logs" EmptyString "Pending";
            Rec 2 "Patch CVE" "urgent" "Partial"], loaded), s') ∧
    (session_frame "Audit" (reload "Audit" loaded) s').1 =
      Ok ([], <[state_key "Audit" := []]> (reload "Audit" loaded)).
Proof.
  apply session_frame_outlives_project.
  - exact ops_store_ok.
  - apply lookup_empty.
  - reflexivity.
Defined.
